(** * movie-ranking-site: the search page (src/src/App.jsx) and the result
      card (src/src/components/MovieCard.jsx)

    A shallow embedding of the two pieces of the site that carry behaviour:
    [fetchMovies], the async function of the [App] component that builds the
    request, awaits the response and writes the component state, and
    [MovieCard], the component that formats one movie record.

    JavaScript data is modelled as ECMAScript has it: a string is a sequence
    of UTF-16 code units, a number is an IEEE double (seen through its exact
    value), a parsed JSON body is a tree of values whose objects are finite
    maps from property names to values.

    Further on: the turns of a call and the page [App] returns, the text
    field (src/src/components/Search.jsx), the page as it was before it had
    a result list (src/unnamed/part_000) and the first app
    (src/my-first-react-app/src/App.jsx). *)

From Stdlib Require Import ZArith NArith Ascii DecimalString.
From stdpp Require Import gmap list strings.

Set Warnings "-register-all".
Set Default Proof Using "Type".

(* ===================================================================== *)
(** ** ECMAScript data *)
(* ===================================================================== *)

Module JS.

(** A string value: its UTF-16 code units, each below 2^16. *)
Definition jsstring : Type := list N.

(** The code units of an ASCII literal of the source. *)
Fixpoint lit (s : string) : jsstring :=
  match s with
  | EmptyString => []
  | String a s' => N_of_ascii a :: lit s'
  end.

(** A Number value.  [Finite neg m e] is the double whose exact value is
    (-1)^neg * m * 2^e; [m = 0] gives the two zeros.  Every finite double
    has this shape, and the operations below depend on the exact value
    only. *)
Inductive number : Type :=
| NaN
| Infinity (neg : bool)
| Finite (neg : bool) (m : N) (e : Z).

Definition plus_zero : number := Finite false 0 0.
Definition one : number := Finite false 1 0.

(** Language values that [JSON.parse] can produce, and [undefined], which
    reading a missing property yields. *)
Inductive value : Type :=
| VUndefined
| VNull
| VBool (b : bool)
| VNum (n : number)
| VStr (s : jsstring)
| VArr (elems : list value)
| VObj (props : gmap (list N) value).

(** What a [throw] carries, as far as the program can tell them apart. *)
Inductive exn : Type :=
| Error (message : jsstring)   (* new Error(message) *)
| TypeError                    (* property read on null or undefined, call of a non-function *)
| URIError                     (* encodeURIComponent on a lone surrogate *)
| Rejected.                    (* the reason of a rejected promise (fetch, response.json) *)

(** The completion of an expression or statement. *)
Inductive completion (A : Type) : Type :=
| Normal (a : A)
| Throw (e : exn).
Arguments Normal {A} a.
Arguments Throw {A} e.

#[global] Instance completion_ret : MRet completion := @Normal.
#[global] Instance completion_bind : MBind completion :=
  fun A B f c => match c with Normal a => f a | Throw e => Throw e end.

(** The two number/string conversions of the language are the engine's; the
    program is modelled for any engine. *)
Class Engine : Type := {
  (** Number::toString(x, 10) *)
  Number_toString : number -> jsstring;
  (** StringToNumber(str) *)
  StringToNumber : jsstring -> number
}.

(* --------------------------------------------------------------------- *)
(** *** Numbers *)

Definition is_zero (x : number) : bool :=
  match x with
  | Finite _ m _ => (m =? 0)%N
  | _ => false
  end.

(** Exact comparison of two finite magnitudes m1 * 2^e1 and m2 * 2^e2. *)
Definition magnitude_eqb (m1 : N) (e1 : Z) (m2 : N) (e2 : Z) : bool :=
  let k := Z.min e1 e2 in
  (Z.of_N m1 * 2 ^ (e1 - k) =? Z.of_N m2 * 2 ^ (e2 - k))%Z.

(** Number::equal(x, y): NaN equals nothing, the two zeros are equal. *)
Definition Number_equal (x y : number) : bool :=
  match x, y with
  | NaN, _ | _, NaN => false
  | Infinity s1, Infinity s2 => bool_decide (s1 = s2)
  | Finite s1 m1 e1, Finite s2 m2 e2 =>
      (is_zero x && is_zero y)
      || (bool_decide (s1 = s2) && magnitude_eqb m1 e1 m2 e2)
  | _, _ => false
  end.

(** The decimal digits of a natural number, [0] for zero. *)
Definition decimal (n : N) : jsstring :=
  lit (NilZero.string_of_uint (N.to_uint n)).

(** The integer n for which n / 10 - m * 2^e is closest to zero, the larger
    one of two (step 10.a of Number.prototype.toFixed with f = 1). *)
Definition nearest_tenths (m : N) (e : Z) : N :=
  match e with
  | Z0 => 10 * m
  | Zpos p => 10 * m * 2 ^ Npos p
  | Zneg p => (20 * m + 2 ^ Npos p) / (2 * 2 ^ Npos p)
  end.

(** Is m * 2^e at least 10^21? *)
Definition at_least_1e21 (m : N) (e : Z) : bool :=
  match e with
  | Z0 => (10 ^ 21 <=? m)%N
  | Zpos p => (10 ^ 21 <=? m * 2 ^ Npos p)%N
  | Zneg p => (10 ^ 21 * 2 ^ Npos p <=? m)%N
  end.

Section WithEngine.
Context `{Engine}.

(** Number.prototype.toFixed(1). *)
Definition toFixed1 (x : number) : jsstring :=
  match x with
  | Finite neg m e =>
      let s := if neg && negb (m =? 0)%N then lit "-" else [] in
      if at_least_1e21 m e then s ++ Number_toString (Finite false m e)
      else
        let n := nearest_tenths m e in
        s ++ decimal (n / 10) ++ lit "." ++ decimal (n mod 10)
  | _ => Number_toString x
  end.

(* --------------------------------------------------------------------- *)
(** *** Conversions and property reads *)

(** ToBoolean. *)
Definition ToBoolean (v : value) : bool :=
  match v with
  | VUndefined | VNull => false
  | VBool b => b
  | VNum NaN => false
  | VNum x => negb (is_zero x)
  | VStr s => negb (bool_decide (s = []))
  | VArr _ | VObj _ => true
  end.

(** [a || b] on values. *)
Definition or_else (a b : value) : value :=
  if ToBoolean a then a else b.

(** Array.prototype.join with the given separator over already converted
    elements. *)
Fixpoint join (sep : jsstring) (parts : list jsstring) : jsstring :=
  match parts with
  | [] => []
  | [p] => p
  | p :: rest => p ++ sep ++ join sep rest
  end.

(** ToString.  An array converts through Array.prototype.toString, that is
    join(','), where undefined and null elements give the empty string.  A
    plain object converts through Object.prototype.toString, unless it has
    an own property toString: a parsed body holds no function, so that
    property is not callable, Object.prototype.valueOf returns the object
    itself, and OrdinaryToPrimitive throws a TypeError. *)
Fixpoint ToString (v : value) : completion jsstring :=
  match v with
  | VUndefined => Normal (lit "undefined")
  | VNull => Normal (lit "null")
  | VBool true => Normal (lit "true")
  | VBool false => Normal (lit "false")
  | VNum x => Normal (Number_toString x)
  | VStr s => Normal s
  | VArr elems =>
      parts ← (fix each (l : list value) : completion (list jsstring) :=
                 match l with
                 | [] => Normal []
                 | x :: l' =>
                     p ← match x with
                         | VUndefined | VNull => Normal []
                         | _ => ToString x
                         end;
                     ps ← each l';
                     Normal (p :: ps)
                 end) elems;
      Normal (join (lit ",") parts)
  | VObj props =>
      match props !! lit "toString" with
      | Some _ => Throw TypeError
      | None => Normal (lit "[object Object]")
      end
  end.

(** [x == s] for a string [s] (IsLooselyEqual with a String on the right):
    undefined and null equal no string, a string is compared as a string, a
    number or boolean is compared with ToNumber(s), an object is first
    converted to a primitive, which for arrays and plain objects is its
    ToString. *)
Definition IsLooselyEqual_String (x : value) (s : jsstring) : completion bool :=
  match x with
  | VUndefined | VNull => Normal false
  | VStr a => Normal (bool_decide (a = s))
  | VNum n => Normal (Number_equal n (StringToNumber s))
  | VBool b => Normal (Number_equal (if b then one else plus_zero) (StringToNumber s))
  | VArr _ | VObj _ => p ← ToString x; Normal (bool_decide (p = s))
  end.

End WithEngine.

(* --------------------------------------------------------------------- *)
(** *** Strings *)

(** [c] is one of the code units of the ASCII string [set]. *)
Definition unit_in (c : N) (set : string) : bool :=
  bool_decide (c ∈ lit set).

(** The characters Encode leaves alone when called from
    encodeURIComponent: the ASCII word characters and -.!~*'() *)
Definition unescaped (c : N) : bool :=
  unit_in c "ABCDEFGHIJKLMNOPQRSTUVWXYZabcdefghijklmnopqrstuvwxyz0123456789_"
  || unit_in c "-.!~*'()".

Definition is_leading_surrogate (c : N) : bool :=
  (0xD800 <=? c)%N && (c <=? 0xDBFF)%N.
Definition is_trailing_surrogate (c : N) : bool :=
  (0xDC00 <=? c)%N && (c <=? 0xDFFF)%N.

(** UTF16SurrogatePairToCodePoint. *)
Definition UTF16SurrogatePairToCodePoint (lead trail : N) : N :=
  ((lead - 0xD800) * 0x400 + (trail - 0xDC00) + 0x10000)%N.

(** The octets of the UTF-8 encoding of a code point. *)
Definition utf8 (cp : N) : list N :=
  let cont (shift : N) := N.lor 0x80 (N.land (N.shiftr cp shift) 0x3F) in
  if (cp <? 0x80)%N then [cp]
  else if (cp <? 0x800)%N then [N.lor 0xC0 (N.shiftr cp 6); cont 0%N]
  else if (cp <? 0x10000)%N then [N.lor 0xE0 (N.shiftr cp 12); cont 6%N; cont 0%N]
  else [N.lor 0xF0 (N.shiftr cp 18); cont 12%N; cont 6%N; cont 0%N].

Definition hex_digit (d : N) : N :=
  nth (N.to_nat d) (lit "0123456789ABCDEF") 0%N.

(** One octet as a percent sign and two uppercase hexadecimal digits. *)
Definition percent (octet : N) : jsstring :=
  lit "%" ++ [hex_digit (octet / 16); hex_digit (octet mod 16)].

Definition percent_all (octets : list N) : jsstring :=
  concat (percent <$> octets).

(** encodeURIComponent(str), that is Encode(str, the empty set): an
    unescaped code unit is copied; any other is read as a code point
    (CodePointAt), which throws a URIError when it is an unpaired surrogate,
    and replaced by its percent-encoded UTF-8 octets. *)
Fixpoint encodeURIComponent (str : jsstring) : completion jsstring :=
  match str with
  | [] => Normal []
  | c :: rest =>
      if unescaped c then
        r ← encodeURIComponent rest; Normal (c :: r)
      else if is_trailing_surrogate c then Throw URIError
      else if is_leading_surrogate c then
        match rest with
        | [] => Throw URIError
        | d :: rest' =>
            if is_trailing_surrogate d then
              r ← encodeURIComponent rest';
              Normal (percent_all (utf8 (UTF16SurrogatePairToCodePoint c d)) ++ r)
            else Throw URIError
        end
      else
        r ← encodeURIComponent rest; Normal (percent_all (utf8 c) ++ r)
  end.

(** String.prototype.isWellFormed: no surrogate without its partner. *)
Fixpoint isWellFormed (str : jsstring) : bool :=
  match str with
  | [] => true
  | c :: rest =>
      if is_trailing_surrogate c then false
      else if is_leading_surrogate c then
        match rest with
        | [] => false
        | d :: rest' => is_trailing_surrogate d && isWellFormed rest'
        end
      else isWellFormed rest
  end.

(** str.split(sep) for a separator of one code unit: the pieces of [str]
    between the occurrences of [sep], in order; never empty. *)
Fixpoint split (sep : N) (str : jsstring) : list jsstring :=
  match str with
  | [] => [[]]
  | c :: rest =>
      if (c =? sep)%N then [] :: split sep rest
      else match split sep rest with
           | piece :: pieces => (c :: piece) :: pieces
           | [] => [[c]]
           end
  end.

(** [o.name] for a property name that no prototype defines (the program
    reads response, Error, results and the fields of a movie): the own
    property of an object, undefined on any other value that has
    properties, a TypeError on undefined and null. *)
Definition Get (o : value) (name : jsstring) : completion value :=
  match o with
  | VUndefined | VNull => Throw TypeError
  | VObj props => Normal (default VUndefined (props !! name))
  | _ => Normal VUndefined
  end.

End JS.

(* ===================================================================== *)
(** ** src/src/App.jsx *)
(* ===================================================================== *)

Module App.
Import JS.

Definition API_BASE_URL : jsstring := lit "https://api.themoviedb.org/3".

(** The state of the [App] component: the four [useState] cells and the
    value the [useDebounce] hook exposes.  The hook itself comes from the
    package use-debounce; the component only reads what it exposes. *)
Record State : Type := {
  searchTerm : jsstring;
  errorMessage : value;
  isLoading : bool;
  movieList : value;
  debouncedSearchTerm : jsstring
}.

(** The state of the first render: the search text and the error message
    are the empty string, the loading flag is false, the result list is
    the empty array, and the debounced text is the empty string too. *)
Definition initial : State :=
  {| searchTerm := []; errorMessage := VStr []; isLoading := false;
     movieList := VArr []; debouncedSearchTerm := [] |}.

(** What the page does to the outside, in the order it does it: calls of
    the four state setters, of the global [fetch] and of [console.log]. *)
Inductive effect : Type :=
| SetSearchTerm (s : jsstring)
| SetErrorMessage (v : value)
| SetIsLoading (b : bool)
| SetMovieList (v : value)
| Fetch (url : jsstring)
| ConsoleLog (arg : value + exn).

Record World : Type := {
  state : State;
  trace : list effect        (* oldest first *)
}.

(** A computation of the page: it may throw, and it changes the world. *)
Definition M (A : Type) : Type := World -> completion A * World.

#[global] Instance M_ret : MRet M := fun A a w => (Normal a, w).
#[global] Instance M_bind : MBind M := fun A B f m w =>
  match m w with
  | (Normal a, w') => f a w'
  | (Throw e, w') => (Throw e, w')
  end.

Definition throw {A} (e : exn) : M A := fun w => (Throw e, w).

(** An expression that touches no state. *)
Definition pure {A} (c : completion A) : M A := fun w => (c, w).

(** What a call of a setter does to the state; the other effects leave it
    alone. *)
Definition apply_effect (e : effect) (st : State) : State :=
  match e with
  | SetSearchTerm s =>
      {| searchTerm := s; errorMessage := errorMessage st;
         isLoading := isLoading st; movieList := movieList st;
         debouncedSearchTerm := debouncedSearchTerm st |}
  | SetErrorMessage v =>
      {| searchTerm := searchTerm st; errorMessage := v;
         isLoading := isLoading st; movieList := movieList st;
         debouncedSearchTerm := debouncedSearchTerm st |}
  | SetIsLoading b =>
      {| searchTerm := searchTerm st; errorMessage := errorMessage st;
         isLoading := b; movieList := movieList st;
         debouncedSearchTerm := debouncedSearchTerm st |}
  | SetMovieList v =>
      {| searchTerm := searchTerm st; errorMessage := errorMessage st;
         isLoading := isLoading st; movieList := v;
         debouncedSearchTerm := debouncedSearchTerm st |}
  | Fetch _ | ConsoleLog _ => st
  end.

(** The state after a sequence of effects. *)
Definition replay (es : list effect) (st : State) : State :=
  foldl (fun st e => apply_effect e st) st es.

Definition emit (e : effect) : M unit := fun w =>
  (Normal (), {| state := apply_effect e (state w); trace := trace w ++ [e] |}).

(** try { body } catch (error) { handler } finally { finalizer } *)
Definition try_catch_finally {A} (body : M A) (handler : exn -> M A)
    (finalizer : M unit) : M A := fun w =>
  let '(c, w1) := match body w with
                  | (Normal a, w') => (Normal a, w')
                  | (Throw e, w') => handler e w'
                  end in
  match finalizer w1 with
  | (Normal _, w2) => (c, w2)
  | (Throw e, w2) => (Throw e, w2)
  end.

Definition setSearchTerm (s : jsstring) : M unit := emit (SetSearchTerm s).
Definition setErrorMessage (v : value) : M unit := emit (SetErrorMessage v).
Definition setIsLoading (b : bool) : M unit := emit (SetIsLoading b).
Definition setMovieList (v : value) : M unit := emit (SetMovieList v).
Definition console_log (arg : value + exn) : M unit := emit (ConsoleLog arg).

(** A response as the program reads it: the status code, and what
    [response.json()] settles to. *)
Record Response : Type := {
  status : N;
  json : completion value
}.

(** response.ok *)
Definition ok (r : Response) : bool :=
  (200 <=? status r)%N && (status r <=? 299)%N.

(** The request the first statement of the try block builds. *)
Definition endpoint (query : jsstring) : completion jsstring :=
  if ToBoolean (VStr query)
  then q ← encodeURIComponent query;
       Normal (API_BASE_URL ++ lit "/search/movie?query=" ++ q)
  else Normal (API_BASE_URL ++ lit "/discover/movie?sort_by=popularity.desc").

Section WithHost.
Context `{Engine}.

(** What the promise of [fetch(url, API_OPTIONS)] settles to; the options
    are the same constant on every call. *)
Variable fetch : jsstring -> completion Response.

Definition await_fetch (url : jsstring) : M Response := fun w =>
  match emit (Fetch url) w with
  | (_, w') => (fetch url, w')
  end.

(** The test of step 8 on the parsed body: data.response == 'False' *)
Definition inline_failure (data : value) : completion bool :=
  response ← Get data (lit "response");
  IsLooselyEqual_String response (lit "False").

(** const fetchMovies = async (query = '') => { ... }; an absent argument
    is [None]. *)
Definition fetchMovies (query : option jsstring) : M unit :=
  let query := default [] query in
  setIsLoading true;;
  setErrorMessage (VStr []);;
  try_catch_finally
    (endpoint ← pure (endpoint query);
     response ← await_fetch endpoint;
     if negb (ok response) then throw (Error (lit "failed to get movies"))
     else
       data ← pure (json response);
       console_log (inl data);;
       failed ← pure (inline_failure data);
       if (failed : bool) then
         e ← pure (Get data (lit "Error"));
         setErrorMessage (or_else e (VStr (lit "Failed to fetch movies")));;
         setMovieList (VArr [])
       else
         results ← pure (Get data (lit "results"));
         setMovieList (or_else results (VArr [])))
    (fun error =>
       console_log (inr error);;
       setErrorMessage (VStr (lit "Error fetching movies. Please Try Again.")))
    (setIsLoading false).

(** The state and trace a call leaves behind, started in state [st]. *)
Definition run (query : option jsstring) (st : State) : World :=
  snd (fetchMovies query {| state := st; trace := [] |}).

(** The same call read as a list of effects, path by path;
    [fetchMovies_effects] below proves that it is what [fetchMovies] does. *)

Definition generic_failure : value :=
  VStr (lit "Error fetching movies. Please Try Again.").

(** The catch block. *)
Definition caught (e : exn) : list effect :=
  [ConsoleLog (inr e); SetErrorMessage generic_failure].

(** After the body is parsed and logged. *)
Definition on_data (data : value) : list effect :=
  match inline_failure data with
  | Throw e => caught e
  | Normal true =>
      match Get data (lit "Error") with
      | Throw e => caught e
      | Normal e =>
          [SetErrorMessage (or_else e (VStr (lit "Failed to fetch movies")));
           SetMovieList (VArr [])]
      end
  | Normal false =>
      match Get data (lit "results") with
      | Throw e => caught e
      | Normal results => [SetMovieList (or_else results (VArr []))]
      end
  end.

(** After the promise of fetch settled. *)
Definition on_settled (r : completion Response) : list effect :=
  match r with
  | Throw e => caught e
  | Normal r =>
      if ok r then
        match json r with
        | Throw e => caught e
        | Normal data => ConsoleLog (inl data) :: on_data data
        end
      else caught (Error (lit "failed to get movies"))
  end.

(** The try block with its catch: from building the request to the last
    write of the path taken. *)
Definition try_block (query : option jsstring) : list effect :=
  match endpoint (default [] query) with
  | Throw e => caught e
  | Normal url => Fetch url :: on_settled (fetch url)
  end.

(** Everything a call does, in order. *)
Definition effects_of (query : option jsstring) : list effect :=
  [SetIsLoading true; SetErrorMessage (VStr [])]
  ++ try_block query
  ++ [SetIsLoading false].


End WithHost.

(** What the page shows below the heading:
    isLoading ? <Spinner/> : errorMessage ? <p>{errorMessage}</p>
                           : <ul>{movieList.map(...)}</ul> *)
Inductive view : Type :=
| Spinner
| ErrorText (message : value)
| Movies (list : value).

Definition render (st : State) : view :=
  if isLoading st then Spinner
  else if ToBoolean (errorMessage st) then ErrorText (errorMessage st)
  else Movies (movieList st).

Definition is_Fetch (e : effect) : bool :=
  match e with Fetch _ => true | _ => false end.

Definition is_SetIsLoading (e : effect) : bool :=
  match e with SetIsLoading _ => true | _ => false end.

(** The cells [fetchMovies] is said to write: the loading flag, the error
    message and the result list; fetch and console.log write no cell. *)
Definition writes_only_its_cells (e : effect) : bool :=
  match e with SetSearchTerm _ => false | _ => true end.

End App.

(* ===================================================================== *)
(** ** src/src/components/MovieCard.jsx *)
(* ===================================================================== *)

Module Card.
Import JS.

(** What one card shows: the attributes of the poster image and the
    children of the heading and of the three paragraphs. *)
Record Rendered : Type := {
  img_src : jsstring;
  img_alt : value;
  h3 : value;
  p_rating : jsstring;
  p_lang : value;
  p_year : value
}.

Section WithEngine.
Context `{Engine}.

(** poster_path ? `https://image.tmdb.org/t/p/w500/${poster_path}`
                : `/No-Poster.png` *)
Definition poster (poster_path : value) : completion jsstring :=
  if ToBoolean poster_path
  then path ← ToString poster_path;
       Normal (lit "https://image.tmdb.org/t/p/w500/" ++ path)
  else Normal (lit "/No-Poster.png").

(** vote_average ? vote_average.toFixed(1) : 'N/A'; only a number has a
    method toFixed. *)
Definition rating (vote_average : value) : completion jsstring :=
  if ToBoolean vote_average
  then match vote_average with
       | VNum x => Normal (toFixed1 x)
       | _ => Throw TypeError
       end
  else Normal (lit "N/A").

(** release_date ? release_date.split('-')[0] : 'N/A'; only a string has a
    method split. *)
Definition year (release_date : value) : completion value :=
  if ToBoolean release_date
  then match release_date with
       | VStr s => Normal (default VUndefined (VStr <$> split 45 s !! 0%nat))
       | _ => Throw TypeError
       end
  else Normal (VStr (lit "N/A")).

(** const MovieCard = ({ movie: { title, vote_average, poster_path,
    release_date, original_language } }) => ... *)
Definition MovieCard (movie : value) : completion Rendered :=
  title ← Get movie (lit "title");
  vote_average ← Get movie (lit "vote_average");
  poster_path ← Get movie (lit "poster_path");
  release_date ← Get movie (lit "release_date");
  original_language ← Get movie (lit "original_language");
  src ← poster poster_path;
  r ← rating vote_average;
  y ← year release_date;
  Normal {| img_src := src; img_alt := title; h3 := title; p_rating := r;
            p_lang := original_language; p_year := y |}.

End WithEngine.

Definition is_digit (c : N) : bool := (48 <=? c)%N && (c <=? 57)%N.

(** [y ++ rest] is a date that starts with the four-digit segment [y], as
    the ISO dates of the service do: four digits, then the end of the
    string or a hyphen. *)
Definition four_digit_date (y rest : jsstring) : Prop :=
  length y = 4%nat
  /\ Forall (fun c => is_digit c = true) y
  /\ (rest = [] \/ exists r, rest = 45%N :: r).

(** A record of the data model: an object whose vote average is a number
    or missing, and whose release date and poster path are strings or
    missing. *)
Definition movie_summary (movie : value) : Prop :=
  exists props,
    movie = VObj props
    /\ (props !! lit "vote_average" = None
        \/ exists x, props !! lit "vote_average" = Some (VNum x))
    /\ (props !! lit "release_date" = None
        \/ exists s, props !! lit "release_date" = Some (VStr s))
    /\ (props !! lit "poster_path" = None
        \/ exists s, props !! lit "poster_path" = Some (VStr s)).

End Card.

(* ===================================================================== *)
(** ** src/src/App.jsx: the turns of a call, and the page *)
(* ===================================================================== *)

Module Schedule.
Import JS App.

Section WithHost.
Context `{Engine}.
Variable fetch : jsstring -> completion Response.

(** An async function runs in turns of the event loop.  The first turn of
    [fetchMovies] runs up to [await fetch(...)]: the two setter calls and
    the call of fetch; when building the request throws, the catch and the
    finally block run in this turn too and the call is over. *)
Definition first_turn (query : option jsstring) : list effect :=
  [SetIsLoading true; SetErrorMessage (VStr [])]
  ++ match endpoint (default [] query) with
     | Throw e => caught e ++ [SetIsLoading false]
     | Normal url => [Fetch url]
     end.

(** What runs once the response is there.  The status check and the call
    of [response.json()] have no effect of their own, so all the effects
    after the request happen together, in the turn that ends the call. *)
Definition later_turn (query : option jsstring) : list effect :=
  match endpoint (default [] query) with
  | Throw e => []
  | Normal url => on_settled (fetch url) ++ [SetIsLoading false]
  end.

End WithHost.

Definition is_SetMovieList (e : effect) : bool :=
  match e with SetMovieList _ => true | _ => false end.

End Schedule.

Module Page.
Import JS App Card.

(** What [App] returns below the heading: the spinner, the paragraph with
    the error message as its child, or the list with one card per movie. *)
Inductive page : Type :=
| ShowSpinner
| ShowError (child : value)
| ShowList (cards : list Rendered).

Section WithEngine.
Context `{Engine}.

(** movieList.map((movie) => <MovieCard key={movie.id} movie={movie}/>),
    and the cards rendered: only an array has a method map; the key is
    read from each movie, the card is rendered from it.  (React reads all
    the keys before it renders the first card; every exception here is a
    TypeError, so the order does not show.) *)
Definition list_items (movieList : value) : completion (list Rendered) :=
  match movieList with
  | VArr movies =>
      (fix each (l : list value) : completion (list Rendered) :=
         match l with
         | [] => Normal []
         | movie :: rest =>
             key ← Get movie (lit "id");
             card ← MovieCard movie;
             cards ← each rest;
             Normal (card :: cards)
         end) movies
  | _ => Throw TypeError
  end.

(** isLoading ? <Spinner/> : errorMessage ? <p>{errorMessage}</p>
                           : <ul>{movieList.map(...)}</ul> *)
Definition App_page (st : State) : completion page :=
  if isLoading st then Normal ShowSpinner
  else if ToBoolean (errorMessage st) then Normal (ShowError (errorMessage st))
  else cards ← list_items (movieList st); Normal (ShowList cards).

End WithEngine.

End Page.

(* ===================================================================== *)
(** ** src/src/components/Search.jsx *)
(* ===================================================================== *)

Module SearchBox.
Import JS App.

(** The text field: the value it shows and its change handler, which gets
    event.target.value. *)
Record input : Type := {
  value_shown : jsstring;
  onChange : jsstring -> M unit
}.

(** const Search = ({searchTerm, setSearchTerm}) =>
      <input type="text" value={searchTerm}
             onChange={(event) => setSearchTerm(event.target.value)} /> *)
Definition Search (searchTerm : jsstring)
    (setSearchTerm : jsstring -> M unit) : input :=
  {| value_shown := searchTerm;
     onChange := fun target_value => setSearchTerm target_value |}.

(** <Search searchTerm={searchTerm} setSearchTerm={setSearchTerm} /> *)
Definition App_search (st : State) : input :=
  Search (searchTerm st) setSearchTerm.

(** The user edits the field to [text]: the handler runs in the world. *)
Definition edit (text : jsstring) (w : World) : World :=
  snd (onChange (App_search (state w)) text w).

End SearchBox.

(* ===================================================================== *)
(** ** src/unnamed/part_000: the page before it had a result list *)
(* ===================================================================== *)

Module Draft.
Import JS App.

(** try { body } catch (error) { handler } *)
Definition try_catch {A} (body : M A) (handler : exn -> M A) : M A := fun w =>
  match body w with
  | (Normal a, w') => (Normal a, w')
  | (Throw e, w') => handler e w'
  end.

(** `${API_BASE_URL}/discover/movie?sort_by=popularity.desc` *)
Definition discover : jsstring :=
  API_BASE_URL ++ lit "/discover/movie?sort_by=popularity.desc".

Section WithHost.
Variable fetch : jsstring -> completion Response.

(** const fetchMovies = async () => { try { ... } catch (error) { ... } } *)
Definition fetchMovies : M unit :=
  try_catch
    (endpoint ← pure (Normal discover);
     response ← await_fetch fetch endpoint;
     if negb (ok response) then throw (Error (lit "failed to get movies"))
     else
       data ← pure (json response);
       console_log (inl data))
    (fun error =>
       console_log (inr error);;
       setErrorMessage (VStr (lit "Error fetching movies. Please Try Again."))).

Definition run (st : State) : World :=
  snd (fetchMovies {| state := st; trace := [] |}).

End WithHost.

(** {errorMessage && <p className="text-red-500">{errorMessage}</p>}: the
    paragraph when the message is truthy, else the falsy message itself,
    which React shows as nothing when it is the empty string. *)
Inductive child : Type :=
| Bare (v : value)
| Paragraph (v : value).

Definition error_child (st : State) : child :=
  if ToBoolean (errorMessage st) then Paragraph (errorMessage st)
  else Bare (errorMessage st).

End Draft.

(* ===================================================================== *)
(** ** src/my-first-react-app/src/App.jsx *)
(* ===================================================================== *)

Module FirstApp.
Import JS.

Record CardView : Type := {
  h2 : jsstring;
  button : jsstring
}.

(** The red heart with its variation selector, and the white heart. *)
Definition red_heart : jsstring := [0x2764; 0xFE0F]%N.
Definition white_heart : jsstring := [0xD83E; 0xDD0D]%N.

(** const Card = ({ title }) => ...; [hasLiked] is the cell of
    useState(false), which the render reads. *)
Definition Card (title : jsstring) (hasLiked : bool) : CardView :=
  {| h2 := title; button := if hasLiked then red_heart else white_heart |}.

(** onClick={() => setHasLiked(!hasLiked)}: the new value of the cell. *)
Definition onClick (hasLiked : bool) : bool := negb hasLiked.

(** The three cards of [App], each with a cell of its own. *)
Definition titles : list jsstring :=
  [lit "Star Wars"; lit "Avatar"; lit "Home"].

Definition mounted : list bool := [false; false; false].

Definition App (cells : list bool) : list CardView :=
  zip_with Card titles cells.

(** A click on the button of card [i]. *)
Definition click (i : nat) (cells : list bool) : list bool :=
  alter onClick i cells.

End FirstApp.

(* ===================================================================== *)
(** ** Words for the properties of the request *)
(* ===================================================================== *)

Module Url.
Import JS.

(** A string of the language: every code unit is below 2^16. *)
Definition code_units (s : jsstring) : Prop :=
  Forall (fun c => (c < 65536)%N) s.

(** What an encoded component is made of: the characters that
    encodeURIComponent leaves alone, and the percent sign. *)
Definition url_safe (c : N) : bool := unescaped c || (c =? 37)%N.

(** The numbers below [k], for checks by enumeration. *)
Definition below (k : nat) : list N := N.of_nat <$> seq 0 k.

(** One step of Encode: the code units it reads (one, or a surrogate
    pair) and what it appends for them. *)
Inductive token : jsstring -> jsstring -> Prop :=
| token_plain c :
    unescaped c = true -> token [c] [c]
| token_unit c :
    unescaped c = false -> is_trailing_surrogate c = false ->
    is_leading_surrogate c = false ->
    token [c] (percent_all (utf8 c))
| token_pair c d :
    unescaped c = false -> is_trailing_surrogate c = false ->
    is_leading_surrogate c = true -> is_trailing_surrogate d = true ->
    token [c; d] (percent_all (utf8 (UTF16SurrogatePairToCodePoint c d))).

End Url.

(* ===================================================================== *)
(** ** Sample data *)
(* ===================================================================== *)

Module Sample.
Import JS App.

(** The samples below never convert between numbers and strings; they run
    on this engine, which answers every such conversion with NaN. *)
Definition nan_engine : Engine :=
  {| Number_toString := fun _ => lit "NaN"; StringToNumber := fun _ => NaN |}.

(** 7.543 as a double: 8492662997313913 * 2^-50. *)
Definition n7_543 : number := Finite false 8492662997313913 (-50).

(** [{ id: 1 }] *)
Definition movies : value := VArr [VObj {[ lit "id" := VNum one ]}].

(** { results: [{ id: 1 }] } *)
Definition body_results : value := VObj {[ lit "results" := movies ]}.

(** { response: "False", Error: "boom" } *)
Definition body_boom : value :=
  VObj (<[ lit "response" := VStr (lit "False") ]>
          {[ lit "Error" := VStr (lit "boom") ]}).

(** { response: "False" } *)
Definition body_false : value :=
  VObj {[ lit "response" := VStr (lit "False") ]}.

(** { success: false }, the body of an error answer of the service. *)
Definition body_unsuccessful : value :=
  VObj {[ lit "success" := VBool false ]}.

(** A network that answers every request with the given status and body. *)
Definition answers (code : N) (body : value) : jsstring -> completion Response :=
  fun _ => Normal {| status := code; json := Normal body |}.

(** The state a successful fetch of [body_results] leaves. *)
Definition loaded : State :=
  {| searchTerm := []; errorMessage := VStr []; isLoading := false;
     movieList := movies; debouncedSearchTerm := [] |}.

(** A string that is one leading surrogate, with nothing after it. *)
Definition lone_surrogate : jsstring := [0xD83D%N].

(** { title: "Dune", vote_average: 7.543, release_date: "2024-05-15",
      original_language: "en" } *)
Definition dune : value :=
  VObj (<[ lit "title" := VStr (lit "Dune") ]>
       (<[ lit "vote_average" := VNum n7_543 ]>
       (<[ lit "release_date" := VStr (lit "2024-05-15") ]>
          {[ lit "original_language" := VStr (lit "en") ]}))).

(** { results: [{ id: 2 }] } *)
Definition other_movies : value :=
  VArr [VObj {[ lit "id" := VNum (Finite false 2 0) ]}].
Definition body_other : value := VObj {[ lit "results" := other_movies ]}.

(** A network that answers the discovery request with [body_results] and
    every other request with [body_other]. *)
Definition popular_or_other : jsstring -> completion Response :=
  fun url =>
    if bool_decide (url = API_BASE_URL
                          ++ lit "/discover/movie?sort_by=popularity.desc")
    then Normal {| status := 200; json := Normal body_results |}
    else Normal {| status := 200; json := Normal body_other |}.

(** { results: "none" } *)
Definition body_no_array : value :=
  VObj {[ lit "results" := VStr (lit "none") ]}.

(** The state a successful fetch leaves when the second of its two
    results is null. *)
Definition loaded_with_null : State :=
  {| searchTerm := []; errorMessage := VStr []; isLoading := false;
     movieList := VArr [VObj {[ lit "id" := VNum one ]}; VNull];
     debouncedSearchTerm := [] |}.

(** The state a failed request leaves on the first page. *)
Definition broken : State :=
  {| searchTerm := []; errorMessage := generic_failure; isLoading := false;
     movieList := VArr []; debouncedSearchTerm := [] |}.

(** A network that rejects every request. *)
Definition offline : jsstring -> completion Response :=
  fun _ => Throw Rejected.

(** A network that answers 200 with a body that is not JSON. *)
Definition garbled : jsstring -> completion Response :=
  fun _ => Normal {| status := 200; json := Throw Rejected |}.

(** { title: "Unrated", vote_average: 0 } *)
Definition unrated : value :=
  VObj (<[ lit "title" := VStr (lit "Unrated") ]>
          {[ lit "vote_average" := VNum plus_zero ]}).

End Sample.

(* ===================================================================== *)
(** ** Properties *)
(* ===================================================================== *)

Import JS App Card.

#[global] Arguments lit : simpl never.
#[global] Arguments endpoint : simpl never.
#[global] Arguments Get : simpl never.
#[global] Arguments IsLooselyEqual_String : simpl never.
#[global] Arguments or_else : simpl never.

#[global] Arguments API_BASE_URL : simpl never.

(* --------------------------------------------------------------------- *)
(** *** The effects of a call, path by path *)

Section FetchMovies.
Context `{Engine}.
Variable fetch : jsstring -> completion Response.

#[local] Ltac unfold_fetchMovies :=
  unfold fetchMovies, try_catch_finally, setIsLoading, setErrorMessage,
    setMovieList, console_log, await_fetch, pure, throw, emit;
  unfold mbind, M_bind; cbn [state trace fst snd app].

(** The call never rejects, and its world is the replay of [effects_of]. *)
Lemma fetchMovies_effects query st :
  fetchMovies fetch query {| state := st; trace := [] |}
  = (Normal (), {| state := replay (effects_of fetch query) st;
                   trace := effects_of fetch query |}).
Proof.
  unfold effects_of, try_block, on_settled, on_data.
  unfold_fetchMovies.
  destruct (endpoint (default [] query)) as [url|e]; [|reflexivity].
  cbn [state trace fst snd app].
  destruct (fetch url) as [r|e]; [|reflexivity].
  destruct (ok r); cbn [negb]; [|reflexivity].
  destruct (json r) as [data|e]; [|reflexivity].
  cbn [state trace fst snd app apply_effect].
  destruct (inline_failure data) as [[|]|e]; [| |reflexivity].
  - destruct (Get data (lit "Error")); reflexivity.
  - destruct (Get data (lit "results")); reflexivity.
Qed.

Lemma run_effects query st :
  run fetch query st
  = {| state := replay (effects_of fetch query) st; trace := effects_of fetch query |}.
Proof. unfold run. by rewrite fetchMovies_effects. Qed.

End FetchMovies.

(* --------------------------------------------------------------------- *)
(** *** Strings *)

Lemma unescaped_not_surrogate c :
  unescaped c = true ->
  is_trailing_surrogate c = false /\ is_leading_surrogate c = false.
Proof.
  unfold unescaped, unit_in. intros Hc.
  apply orb_true_iff in Hc as [Hc|Hc]; apply bool_decide_eq_true in Hc;
    vm_compute lit in Hc;
    repeat (apply elem_of_cons in Hc as [->|Hc]; [by vm_compute|]);
    by apply elem_of_nil in Hc.
Qed.

Lemma space_escaped : unescaped 32 = false.
Proof. by vm_compute. Qed.

Lemma encode_space : percent_all (utf8 32) = lit "%20".
Proof. by vm_compute. Qed.

(** Induction on strings that may drop one code unit or two. *)
Lemma jsstring_pair_ind (P : jsstring -> Prop) :
  P [] ->
  (forall c rest, P rest -> (forall d rest', rest = d :: rest' -> P rest') ->
                  P (c :: rest)) ->
  forall s, P s.
Proof.
  intros Hnil Hcons s.
  assert (P s /\ forall d s', s = d :: s' -> P s') as [Hs _]; [|exact Hs].
  induction s as [|c rest [IH1 IH2]].
  - split; [exact Hnil|]. intros d s' Heq. discriminate Heq.
  - split.
    + apply Hcons; assumption.
    + intros d s' Heq. injection Heq as -> ->. exact IH1.
Qed.

(** encodeURIComponent succeeds exactly on the well-formed strings. *)
Lemma encodeURIComponent_isWellFormed str :
  isWellFormed str = true <-> exists q, encodeURIComponent str = Normal q.
Proof.
  induction str as [|c rest IH IH2] using jsstring_pair_ind.
  - split; [by exists []|done].
  - cbn [isWellFormed encodeURIComponent].
    destruct (unescaped c) eqn:Hu.
    + destruct (unescaped_not_surrogate c Hu) as [-> ->].
      rewrite IH. split.
      * intros [q ->]. by eexists.
      * intros [q Hq]. destruct (encodeURIComponent rest); [by eexists|done].
    + destruct (is_trailing_surrogate c); [split; [done|by intros [q Hq]]|].
      destruct (is_leading_surrogate c).
      * destruct rest as [|d rest']; [split; [done|by intros [q Hq]]|].
        destruct (is_trailing_surrogate d); cbn [andb];
          [|split; [done|by intros [q Hq]]].
        rewrite (IH2 d rest' eq_refl). split.
        -- intros [q ->]. by eexists.
        -- intros [q Hq]. destruct (encodeURIComponent rest'); [by eexists|done].
      * rewrite IH. split.
        -- intros [q ->]. by eexists.
        -- intros [q Hq]. destruct (encodeURIComponent rest); [by eexists|done].
Qed.

(** The only exception encodeURIComponent throws is the URIError. *)
Lemma encodeURIComponent_throws str e :
  encodeURIComponent str = Throw e -> e = URIError.
Proof.
  induction str as [|c rest IH IH2] using jsstring_pair_ind; [done|].
  cbn [encodeURIComponent].
  destruct (unescaped c).
  { destruct (encodeURIComponent rest); [done|]. intros [= <-]. by apply IH. }
  destruct (is_trailing_surrogate c); [by intros [= <-]|].
  destruct (is_leading_surrogate c).
  - destruct rest as [|d rest']; [by intros [= <-]|].
    destruct (is_trailing_surrogate d); [|by intros [= <-]].
    specialize (IH2 d rest' eq_refl).
    destruct (encodeURIComponent rest'); [done|]. intros [= <-]. by apply IH2.
  - destruct (encodeURIComponent rest); [done|]. intros [= <-]. by apply IH.
Qed.

(** Every space of the input becomes %20: encoding splits at a space. *)
Lemma encodeURIComponent_space (a b : jsstring) :
  encodeURIComponent (a ++ 32%N :: b)
  = (x ← encodeURIComponent a; y ← encodeURIComponent b;
     Normal (x ++ lit "%20" ++ y)).
Proof.
  induction a as [|c rest IH IH2] using jsstring_pair_ind.
  - cbn [app encodeURIComponent]. rewrite space_escaped.
    change (is_trailing_surrogate 32) with false.
    change (is_leading_surrogate 32) with false.
    cbn iota. rewrite encode_space. by destruct (encodeURIComponent b).
  - cbn [app encodeURIComponent].
    destruct (unescaped c).
    { rewrite IH. destruct (encodeURIComponent rest) as [x|]; [|done].
      by destruct (encodeURIComponent b). }
    destruct (is_trailing_surrogate c); [done|].
    destruct (is_leading_surrogate c).
    + destruct rest as [|d rest']; [done|]. cbn [app].
      destruct (is_trailing_surrogate d); [|done].
      rewrite (IH2 d rest' eq_refl).
      destruct (encodeURIComponent rest') as [x|]; [|done].
      destruct (encodeURIComponent b); [|done].
      cbn. by rewrite <- !app_assoc.
    + rewrite IH. destruct (encodeURIComponent rest) as [x|]; [|done].
      destruct (encodeURIComponent b); [|done].
      cbn. by rewrite <- !app_assoc.
Qed.

(* --------------------------------------------------------------------- *)
(** *** fetchMovies *)

Section Claims.
Context `{Engine}.
Variable fetch : jsstring -> completion Response.

Lemma loosely_equal_same s : IsLooselyEqual_String (VStr s) s = Normal true.
Proof. unfold IsLooselyEqual_String. by rewrite bool_decide_eq_true_2. Qed.

Lemma or_else_falsy a b : ToBoolean a = false -> or_else a b = b.
Proof. unfold or_else. by intros ->. Qed.

Lemma or_else_truthy a b : ToBoolean a = true -> or_else a b = a.
Proof. unfold or_else. by intros ->. Qed.

(** A body on which the test of step 8 completes has properties to read. *)
Lemma Get_after_inline_failure data b name :
  inline_failure data = Normal b -> exists v, Get data name = Normal v.
Proof.
  unfold inline_failure, Get. destruct data; try done; by eexists.
Qed.

(** The effects of a call whose request was answered with a 2xx status and
    a body that parsed. *)
Lemma effects_of_parsed query url r data :
  endpoint (default [] query) = Normal url ->
  fetch url = Normal r ->
  ok r = true ->
  json r = Normal data ->
  effects_of fetch query
  = [SetIsLoading true; SetErrorMessage (VStr []); Fetch url;
     ConsoleLog (inl data)]
    ++ on_data data ++ [SetIsLoading false].
Proof.
  intros Hurl Hfetch Hok Hjson. unfold effects_of, try_block, on_settled.
  by rewrite Hurl, Hfetch, Hok, Hjson.
Qed.

(** C2: a 2xx response whose body has response equal to the string False
    and Error equal to boom leaves the error message boom and the result
    list empty; the page shows the error; the only write to the list is the
    clearing one. *)
Theorem fetchMovies_inline_failure query st url r data :
  endpoint (default [] query) = Normal url ->
  fetch url = Normal r ->
  ok r = true ->
  json r = Normal data ->
  Get data (lit "response") = Normal (VStr (lit "False")) ->
  Get data (lit "Error") = Normal (VStr (lit "boom")) ->
  let w := run fetch query st in
  errorMessage (state w) = VStr (lit "boom")
  /\ movieList (state w) = VArr []
  /\ render (state w) = ErrorText (VStr (lit "boom"))
  /\ trace w = [SetIsLoading true; SetErrorMessage (VStr []); Fetch url;
                ConsoleLog (inl data); SetErrorMessage (VStr (lit "boom"));
                SetMovieList (VArr []); SetIsLoading false].
Proof.
  intros Hurl Hfetch Hok Hjson Hresp Herr w. subst w.
  rewrite run_effects, (effects_of_parsed _ _ _ _ Hurl Hfetch Hok Hjson).
  unfold on_data, inline_failure. rewrite Hresp. cbn [mbind completion_bind].
  rewrite loosely_equal_same, Herr.
  rewrite or_else_truthy by reflexivity.
  repeat split.
Qed.

(** C10: a 2xx response whose body has response equal to the string False
    and whose Error is missing or the empty string leaves the default text
    Failed to fetch movies as error message, and the result list empty. *)
Theorem fetchMovies_inline_failure_default query st url r data e :
  endpoint (default [] query) = Normal url ->
  fetch url = Normal r ->
  ok r = true ->
  json r = Normal data ->
  Get data (lit "response") = Normal (VStr (lit "False")) ->
  Get data (lit "Error") = Normal e ->
  e = VUndefined \/ e = VStr [] ->
  let w := run fetch query st in
  errorMessage (state w) = VStr (lit "Failed to fetch movies")
  /\ errorMessage (state w) <> VStr []
  /\ movieList (state w) = VArr []
  /\ render (state w) = ErrorText (VStr (lit "Failed to fetch movies")).
Proof.
  intros Hurl Hfetch Hok Hjson Hresp Herr He w. subst w.
  rewrite run_effects, (effects_of_parsed _ _ _ _ Hurl Hfetch Hok Hjson).
  unfold on_data, inline_failure. rewrite Hresp. cbn [mbind completion_bind].
  rewrite loosely_equal_same, Herr.
  rewrite or_else_falsy by (by destruct He as [->| ->]).
  repeat split. discriminate.
Qed.


(* The frame of a call. *)

Lemma replay_app es1 es2 st : replay (es1 ++ es2) st = replay es2 (replay es1 st).
Proof. unfold replay. apply foldl_app. Qed.

Lemma replay_searchTerm es st :
  Forall (fun e => writes_only_its_cells e = true) es ->
  searchTerm (replay es st) = searchTerm st.
Proof.
  intros Hes. revert st. induction Hes as [|e es He _ IH]; intros st; [done|].
  change (replay (e :: es) st) with (replay es (apply_effect e st)).
  rewrite IH. by destruct e.
Qed.

Lemma replay_debouncedSearchTerm es st :
  debouncedSearchTerm (replay es st) = debouncedSearchTerm st.
Proof.
  revert st. induction es as [|e es IH]; intros st; [done|].
  change (replay (e :: es) st) with (replay es (apply_effect e st)).
  rewrite IH. by destruct e.
Qed.

Lemma replay_isLoading es st :
  Forall (fun e => is_SetIsLoading e = false) es ->
  isLoading (replay es st) = isLoading st.
Proof.
  intros Hes. revert st. induction Hes as [|e es He _ IH]; intros st; [done|].
  change (replay (e :: es) st) with (replay es (apply_effect e st)).
  rewrite IH. by destruct e.
Qed.

Lemma effects_of_try_block query :
  effects_of fetch query
  = SetIsLoading true
    :: (SetErrorMessage (VStr []) :: try_block fetch query)
       ++ [SetIsLoading false].
Proof. reflexivity. Qed.

#[local] Ltac by_paths :=
  unfold try_block, on_settled, on_data, caught;
  repeat case_match; repeat constructor.

Lemma try_block_cells query :
  Forall (fun e => writes_only_its_cells e = true) (try_block fetch query).
Proof. by_paths. Qed.

Lemma try_block_keeps_loading query :
  Forall (fun e => is_SetIsLoading e = false) (try_block fetch query).
Proof. by_paths. Qed.

Lemma on_settled_no_fetch r :
  Forall (fun e => is_Fetch e = false) (on_settled r).
Proof. by_paths. Qed.

(** C5: whatever the outcome, the call settles; its first effect sets the
    loading flag, its last clears it and nothing in between writes it; so
    the flag is true from the first effect until the last, and false once
    the call has settled. *)
Theorem fetchMovies_loading query st :
  let w := run fetch query st in
  fst (fetchMovies fetch query {| state := st; trace := [] |}) = Normal ()
  /\ (exists middle,
        trace w = SetIsLoading true :: middle ++ [SetIsLoading false]
        /\ Forall (fun e => is_SetIsLoading e = false) middle)
  /\ (forall n, (0 < n < length (trace w))%nat ->
                isLoading (replay (take n (trace w)) st) = true)
  /\ state w = replay (trace w) st
  /\ isLoading (state w) = false.
Proof.
  intros w. subst w. rewrite fetchMovies_effects, run_effects.
  cbn [fst state trace]. rewrite effects_of_try_block.
  set (middle := SetErrorMessage (VStr []) :: try_block fetch query).
  assert (Forall (fun e => is_SetIsLoading e = false) middle) as Hmiddle.
  { constructor; [done|apply try_block_keeps_loading]. }
  split; [done|]. split; [by exists middle|]. split; [|split; [done|]].
  - intros n [Hpos Hlt]. destruct n as [|n]; [lia|].
    cbn [length] in Hlt. rewrite length_app in Hlt. cbn [length] in Hlt.
    cbn [take]. rewrite take_app_le by lia.
    change (replay (SetIsLoading true :: take n middle) st)
      with (replay (take n middle) (apply_effect (SetIsLoading true) st)).
    rewrite replay_isLoading; [done|]. by apply Forall_take.
  - change (SetIsLoading true :: middle ++ [SetIsLoading false])
      with ((SetIsLoading true :: middle) ++ [SetIsLoading false]).
    by rewrite replay_app.
Qed.

(** C9: a call leaves the search text and the debounced search text as
    they were; all it writes are the loading flag, the error message and
    the result list. *)
Theorem fetchMovies_frame query st :
  let w := run fetch query st in
  searchTerm (state w) = searchTerm st
  /\ debouncedSearchTerm (state w) = debouncedSearchTerm st
  /\ Forall (fun e => writes_only_its_cells e = true) (trace w)
  /\ state w = replay (trace w) st.
Proof.
  intros w. subst w. rewrite run_effects. cbn [state trace].
  assert (Forall (fun e => writes_only_its_cells e = true)
            (effects_of fetch query)) as Hcells.
  { rewrite effects_of_try_block. constructor; [done|].
    apply Forall_app. split; [|by repeat constructor].
    constructor; [done|apply try_block_cells]. }
  split; [by apply replay_searchTerm|].
  split; [apply replay_debouncedSearchTerm|]. done.
Qed.

(** A request that fails (the promise of fetch rejects, or the status is
    not 2xx) leaves the generic message, and the result list as it was. *)
Lemma fetchMovies_failed_request query st url :
  endpoint (default [] query) = Normal url ->
  (forall r, fetch url = Normal r -> ok r = false) ->
  let w := run fetch query st in
  errorMessage (state w) = generic_failure
  /\ movieList (state w) = movieList st.
Proof.
  intros Hurl Hfail w. subst w. rewrite run_effects.
  unfold effects_of, try_block, on_settled. rewrite Hurl.
  destruct (fetch url) as [r|e]; [rewrite (Hfail r eq_refl)|]; done.
Qed.

(** A query with an unpaired surrogate is not encoded: the catch block runs
    and nothing is requested. *)
Lemma fetchMovies_malformed_query query st :
  isWellFormed (default [] query) = false ->
  trace (run fetch query st)
  = [SetIsLoading true; SetErrorMessage (VStr []); ConsoleLog (inr URIError);
     SetErrorMessage generic_failure; SetIsLoading false].
Proof.
  intros Hwf. rewrite run_effects. unfold effects_of, try_block, endpoint.
  destruct (default [] query) as [|c s] eqn:Hquery; [done|].
  cbn [ToBoolean]. rewrite bool_decide_eq_false_2 by done. cbn [negb].
  destruct (encodeURIComponent (c :: s)) as [q|e] eqn:Hq.
  - assert (isWellFormed (c :: s) = true) as Hok
      by (apply encodeURIComponent_isWellFormed; by exists q).
    congruence.
  - by rewrite (encodeURIComponent_throws _ _ Hq).
Qed.

(** C3 (as amended): an absent or empty query requests the discovery
    listing; a non-empty query without unpaired surrogates requests the
    search listing with the query percent-encoded; it is the only request
    of the call; and every space of the query has become %20. *)
Theorem fetchMovies_request query st :
  isWellFormed (default [] query) = true ->
  exists q,
    encodeURIComponent (default [] query) = Normal q
    /\ (exists rest,
          trace (run fetch query st)
          = SetIsLoading true :: SetErrorMessage (VStr [])
            :: Fetch (match default [] query with
                      | [] => API_BASE_URL
                              ++ lit "/discover/movie?sort_by=popularity.desc"
                      | _ => API_BASE_URL ++ lit "/search/movie?query=" ++ q
                      end)
            :: rest
          /\ Forall (fun e => is_Fetch e = false) rest)
    /\ (forall a b, default [] query = a ++ 32%N :: b ->
          exists qa qb,
            encodeURIComponent a = Normal qa
            /\ encodeURIComponent b = Normal qb
            /\ q = qa ++ lit "%20" ++ qb).
Proof.
  intros Hwf. apply encodeURIComponent_isWellFormed in Hwf as [q Hq].
  exists q. split; [exact Hq|]. split.
  - rewrite run_effects. unfold effects_of, try_block, endpoint.
    rewrite Hq. cbn [mbind completion_bind].
    set (url := match default [] query with [] => _ | _ => _ end).
    exists (on_settled (fetch url) ++ [SetIsLoading false]). split.
    + subst url. by destruct (default [] query).
    + apply Forall_app. split; [apply on_settled_no_fetch|by repeat constructor].
  - intros a b Hab. rewrite Hab, encodeURIComponent_space in Hq.
    destruct (encodeURIComponent a) as [qa|]; [|done].
    destruct (encodeURIComponent b) as [qb|]; [|done].
    exists qa, qb. by injection Hq as <-.
Qed.

End Claims.

(* --------------------------------------------------------------------- *)
(** *** fetchMovies on the sample data *)

Import Sample.

(** C1: after a fetch has filled the result list, a 404 answer leaves the
    generic message but not an empty result list: the catch block does not
    clear it, the list of the earlier fetch is still there. *)
Theorem fetchMovies_http_error_keeps_list `{Engine} :
  let st := state (run (answers 200 body_results) None initial) in
  let w := run (answers 404 body_unsuccessful) None st in
  st = loaded
  /\ errorMessage (state w) = generic_failure
  /\ movieList (state w) = movies
  /\ movieList (state w) <> VArr []
  /\ render (state w) = ErrorText generic_failure.
Proof.
  intros st w. assert (st = loaded) as Hst by reflexivity.
  split; [exact Hst|]. subst w. rewrite Hst. clear st Hst.
  destruct (fetchMovies_failed_request (answers 404 body_unsuccessful) None
              loaded _ eq_refl) as [Hmessage Hlist].
  { by intros r [= <-]. }
  split; [exact Hmessage|]. split; [exact Hlist|]. split.
  - intros Hempty. discriminate (eq_trans (eq_sym Hlist) Hempty).
  - reflexivity.
Qed.

(** C3 as stated fails on a query that is a lone surrogate:
    encodeURIComponent throws, the catch block runs and nothing is
    requested. *)
Lemma fetchMovies_lone_surrogate_no_request :
  encodeURIComponent lone_surrogate = Throw URIError
  /\ trace (@run nan_engine (answers 200 body_results) (Some lone_surrogate)
              initial)
     = [SetIsLoading true; SetErrorMessage (VStr []);
        ConsoleLog (inr URIError); SetErrorMessage generic_failure;
        SetIsLoading false]
  /\ ~ exists url,
         Fetch url ∈ trace (@run nan_engine (answers 200 body_results)
                              (Some lone_surrogate) initial).
Proof.
  split; [reflexivity|]. split; [reflexivity|].
  intros [url Hin]. rewrite run_effects in Hin.
  change (Fetch url ∈ [SetIsLoading true; SetErrorMessage (VStr []);
                       ConsoleLog (inr URIError);
                       SetErrorMessage generic_failure; SetIsLoading false])
    in Hin.
  repeat (apply elem_of_cons in Hin as [Hin|Hin]; [discriminate Hin|]).
  by apply elem_of_nil in Hin.
Qed.

Lemma fetchMovies_inline_failure_witness :
  let w := @run nan_engine (answers 200 body_boom) None initial in
  errorMessage (state w) = VStr (lit "boom")
  /\ movieList (state w) = VArr []
  /\ render (state w) = ErrorText (VStr (lit "boom"))
  /\ trace w
     = [SetIsLoading true; SetErrorMessage (VStr []);
        Fetch (API_BASE_URL ++ lit "/discover/movie?sort_by=popularity.desc");
        ConsoleLog (inl body_boom); SetErrorMessage (VStr (lit "boom"));
        SetMovieList (VArr []); SetIsLoading false].
Proof.
  eapply (@fetchMovies_inline_failure nan_engine (answers 200 body_boom) None
            initial); reflexivity.
Defined.

Lemma fetchMovies_inline_failure_default_witness :
  let w := @run nan_engine (answers 200 body_false) (Some (lit "dune"))
             initial in
  errorMessage (state w) = VStr (lit "Failed to fetch movies")
  /\ errorMessage (state w) <> VStr []
  /\ movieList (state w) = VArr []
  /\ render (state w) = ErrorText (VStr (lit "Failed to fetch movies")).
Proof.
  eapply (@fetchMovies_inline_failure_default nan_engine
            (answers 200 body_false) (Some (lit "dune")) initial);
    [reflexivity..|].
  left. reflexivity.
Defined.


Lemma fetchMovies_request_witness :
  isWellFormed (lit "batman and robin") = true
  /\ exists rest,
       trace (@run nan_engine (answers 200 body_results)
                (Some (lit "batman and robin")) initial)
       = SetIsLoading true :: SetErrorMessage (VStr [])
         :: Fetch (lit "https://api.themoviedb.org/3/search/movie?query=batman%20and%20robin")
         :: rest.
Proof.
  split; [reflexivity|].
  destruct (@fetchMovies_request nan_engine (answers 200 body_results)
              (Some (lit "batman and robin")) initial eq_refl)
    as (q & Hq & (rest & Htrace & _) & _).
  exists rest. rewrite Htrace.
  injection Hq as <-. reflexivity.
Defined.

(* --------------------------------------------------------------------- *)
(** *** MovieCard *)

Lemma split_without sep (a : jsstring) :
  Forall (fun c => c <> sep) a -> split sep a = [a].
Proof.
  induction 1 as [|c a Hc _ IH]; [done|].
  cbn [split]. rewrite IH. by apply N.eqb_neq in Hc as ->.
Qed.

Lemma split_at_first sep (a b : jsstring) :
  Forall (fun c => c <> sep) a ->
  split sep (a ++ sep :: b) = a :: split sep b.
Proof.
  induction 1 as [|c a Hc _ IH]; cbn [app split].
  - by rewrite N.eqb_refl.
  - rewrite IH. by apply N.eqb_neq in Hc as ->.
Qed.

Lemma digit_not_hyphen c : is_digit c = true -> c <> 45%N.
Proof. unfold is_digit. intros Hc ->. done. Qed.

Lemma split_four_digit_date y rest :
  four_digit_date y rest -> split 45 (y ++ rest) !! 0%nat = Some y.
Proof.
  intros (_ & Hdigits & Hrest).
  assert (Forall (fun c => c <> 45%N) y) as Hy.
  { eapply Forall_impl; [exact Hdigits|]. apply digit_not_hyphen. }
  destruct Hrest as [->|[r ->]].
  - by rewrite app_nil_r, split_without.
  - by rewrite split_at_first.
Qed.

Lemma decimal_digit k : (k < 10)%N -> decimal k = [(48 + k)%N].
Proof.
  intros Hk. destruct k as [|p]; [done|].
  do 4 (try destruct p as [p|p|]); try done; lia.
Qed.

Section CardClaims.
Context `{Engine}.

(** A truthy number is shown through toFixed(1). *)
Lemma rating_number x :
  ToBoolean (VNum x) = true -> rating (VNum x) = Normal (toFixed1 x).
Proof. unfold rating. by intros ->. Qed.

(** A missing or null vote average is shown as N/A. *)
Lemma rating_absent :
  rating VUndefined = Normal (lit "N/A") /\ rating VNull = Normal (lit "N/A").
Proof. done. Qed.

(** Below 10^21, toFixed(1) ends in a point and exactly one digit. *)
Lemma toFixed1_one_decimal neg m e :
  at_least_1e21 m e = false ->
  exists whole d,
    toFixed1 (Finite neg m e) = whole ++ lit "." ++ [d] /\ is_digit d = true.
Proof.
  intros Hsmall. unfold toFixed1. rewrite Hsmall.
  set (n := nearest_tenths m e).
  assert (n `mod` 10 < 10)%N as Hd by (by apply N.mod_lt).
  rewrite (decimal_digit _ Hd).
  generalize dependent (n `mod` 10)%N. intros k Hk.
  eexists (_ ++ decimal (n / 10)), _. split.
  - rewrite <- app_assoc. reflexivity.
  - unfold is_digit. apply andb_true_iff. split; apply N.leb_le; lia.
Qed.

(** The example of the specification: 7.543 is shown as 7.5. *)
Lemma rating_7_543 : rating (VNum Sample.n7_543) = Normal (lit "7.5").
Proof. by vm_compute. Qed.

(** C6: a vote average of 0 is present, and toFixed(1) would print it as
    0.0, but the card shows N/A: the test of the conditional is the
    truthiness of the number, and 0 is falsy. *)
Theorem MovieCard_rating_zero :
  toFixed1 plus_zero = lit "0.0"
  /\ rating (VNum plus_zero) = Normal (lit "N/A")
  /\ exists card,
       MovieCard Sample.unrated = Normal card /\ p_rating card = lit "N/A".
Proof.
  split; [by vm_compute|]. split; [done|].
  eexists. split; [by vm_compute|done].
Qed.

(** A record of the data model renders. *)
Lemma MovieCard_renders movie :
  movie_summary movie -> exists card, MovieCard movie = Normal card.
Proof.
  intros (props & -> & Hvote & Hdate & Hposter).
  unfold MovieCard, Get. cbn [mbind completion_bind].
  assert (exists src, poster (default VUndefined (props !! lit "poster_path"))
                      = Normal src) as [src ->].
  { destruct Hposter as [->|[s ->]]; [by eexists|].
    destruct s; by eexists. }
  assert (exists r, rating (default VUndefined (props !! lit "vote_average"))
                    = Normal r) as [r ->].
  { destruct Hvote as [->|[x ->]]; [by eexists|].
    unfold rating. destruct (ToBoolean _); by eexists. }
  assert (exists y, year (default VUndefined (props !! lit "release_date"))
                    = Normal y) as [y ->].
  { destruct Hdate as [->|[s ->]]; [by eexists|].
    destruct s; by eexists. }
  by eexists.
Qed.

(** What the year expression does on any non-empty string: the piece
    before the first hyphen. *)
Lemma year_first_piece c s :
  year (VStr (c :: s)) = Normal (VStr (hd [] (split 45 (c :: s)))).
Proof.
  unfold year. cbn [ToBoolean]. rewrite bool_decide_eq_false_2 by done.
  cbn [negb split]. destruct (c =? 45)%N; [done|].
  by destruct (split 45 s).
Qed.

(** C7: a release date that starts with a four-digit segment is shown as
    that segment; a missing or null release date is shown as N/A; and the
    year paragraph of a rendered card is this expression on the release
    date of the movie. *)
Theorem MovieCard_year movie y rest :
  four_digit_date y rest ->
  year (VStr (y ++ rest)) = Normal (VStr y)
  /\ year VUndefined = Normal (VStr (lit "N/A"))
  /\ year VNull = Normal (VStr (lit "N/A"))
  /\ (forall card, MovieCard movie = Normal card ->
        exists release_date,
          Get movie (lit "release_date") = Normal release_date
          /\ year release_date = Normal (p_year card)).
Proof.
  intros Hdate. split; [|split; [done|split; [done|]]].
  - unfold year. rewrite (split_four_digit_date _ _ Hdate).
    destruct Hdate as (Hlen & _ & _). by destruct y.
  - intros card. unfold MovieCard.
    destruct (Get movie (lit "title")) as [title|]; [|done].
    destruct (Get movie (lit "vote_average")) as [vote_average|]; [|done].
    destruct (Get movie (lit "poster_path")) as [poster_path|]; [|done].
    destruct (Get movie (lit "release_date")) as [release_date|]; [|done].
    destruct (Get movie (lit "original_language")) as [language|]; [|done].
    cbn [mbind completion_bind].
    destruct (poster poster_path); cbn [mbind completion_bind]; [|done].
    destruct (rating vote_average); cbn [mbind completion_bind]; [|done].
    destruct (year release_date) as [shown|] eqn:Hyear;
      cbn [mbind completion_bind]; [|done].
    intros [= <-]. by exists release_date.
Qed.

End CardClaims.

Lemma MovieCard_year_witness :
  four_digit_date (lit "2024") (lit "-05-15")
  /\ year (VStr (lit "2024-05-15")) = Normal (VStr (lit "2024"))
  /\ exists card,
       @MovieCard Sample.nan_engine Sample.dune = Normal card
       /\ p_year card = VStr (lit "2024")
       /\ p_rating card = lit "7.5".
Proof.
  assert (four_digit_date (lit "2024") (lit "-05-15")) as Hdate.
  { split; [reflexivity|]. split; [by repeat constructor|].
    right. by eexists. }
  split; [exact Hdate|].
  destruct (@MovieCard_year Sample.nan_engine Sample.dune _ _ Hdate)
    as (Hyear & _ & _ & Hcard).
  split; [exact Hyear|].
  eexists. split; [by vm_compute|]. split; reflexivity.
Defined.

(* ===================================================================== *)
(** ** Further properties of the code *)
(* ===================================================================== *)

Import Schedule Page SearchBox.

(* --------------------------------------------------------------------- *)
(** *** Replaying effects *)

Lemma replay_cons e es st : replay (e :: es) st = replay es (apply_effect e st).
Proof. reflexivity. Qed.

Lemma replay_errorMessage_agree es st st' :
  errorMessage st = errorMessage st' ->
  errorMessage (replay es st) = errorMessage (replay es st').
Proof.
  revert st st'. induction es as [|e es IH]; intros st st' Heq; [done|].
  rewrite !replay_cons. apply IH. destruct e; cbn; congruence.
Qed.

Lemma replay_isLoading_agree es st st' :
  isLoading st = isLoading st' ->
  isLoading (replay es st) = isLoading (replay es st').
Proof.
  revert st st'. induction es as [|e es IH]; intros st st' Heq; [done|].
  rewrite !replay_cons. apply IH. destruct e; cbn; congruence.
Qed.

Lemma replay_movieList_agree es st st' :
  movieList st = movieList st' ->
  movieList (replay es st) = movieList (replay es st').
Proof.
  revert st st'. induction es as [|e es IH]; intros st st' Heq; [done|].
  rewrite !replay_cons. apply IH. destruct e; cbn; congruence.
Qed.

Lemma replay_movieList_kept es st :
  Forall (fun e => is_SetMovieList e = false) es ->
  movieList (replay es st) = movieList st.
Proof.
  intros Hes. revert st. induction Hes as [|e es He _ IH]; intros st; [done|].
  rewrite replay_cons, IH. by destruct e.
Qed.

Section MoreFetchMovies.
Context `{Engine}.
Variable fetch : jsstring -> completion Response.

(* --------------------------------------------------------------------- *)
(** *** fetchMovies: the failure paths *)

(** X1: when the request fails (the promise of fetch rejects, or the
    status is not 2xx), the call logs the error, leaves the generic
    message and does not touch the result list; the page shows the
    message, so a list left by an earlier fetch is kept but not shown. *)
Theorem fetchMovies_failed_request_page query st url :
  endpoint (default [] query) = Normal url ->
  (forall r, fetch url = Normal r -> ok r = false) ->
  let w := run fetch query st in
  (exists e, trace w = [SetIsLoading true; SetErrorMessage (VStr []);
                        Fetch url; ConsoleLog (inr e);
                        SetErrorMessage generic_failure; SetIsLoading false])
  /\ errorMessage (state w) = generic_failure
  /\ movieList (state w) = movieList st
  /\ App_page (state w) = Normal (ShowError generic_failure).
Proof.
  intros Hurl Hfail w. subst w. rewrite run_effects.
  unfold effects_of, try_block, on_settled. rewrite Hurl.
  destruct (fetch url) as [r|e]; [rewrite (Hfail r eq_refl)|];
    (split; [by eexists|done]).
Qed.

(** X2: a query with an unpaired surrogate anywhere in it is never sent:
    the call makes no request, leaves the generic message and the result
    list as it was, and the page shows the message. *)
Theorem fetchMovies_malformed_query_page query st :
  isWellFormed (default [] query) = false ->
  let w := run fetch query st in
  Forall (fun e => is_Fetch e = false) (trace w)
  /\ errorMessage (state w) = generic_failure
  /\ movieList (state w) = movieList st
  /\ isLoading (state w) = false
  /\ App_page (state w) = Normal (ShowError generic_failure).
Proof.
  intros Hwf w. subst w.
  pose proof (fetchMovies_malformed_query fetch query st Hwf) as Htrace.
  rewrite run_effects in Htrace |- *. cbn [trace state] in Htrace |- *.
  rewrite Htrace. split; [by repeat constructor|done].
Qed.

(** X3: a 2xx response whose body cannot be used (response.json() rejects,
    or the body is the JSON value null, which has no properties to read)
    ends like a failed request: generic message, result list untouched. *)
Theorem fetchMovies_unusable_body query st url r :
  endpoint (default [] query) = Normal url ->
  fetch url = Normal r ->
  ok r = true ->
  (exists e, json r = Throw e) \/ json r = Normal VNull ->
  let w := run fetch query st in
  errorMessage (state w) = generic_failure
  /\ movieList (state w) = movieList st
  /\ Forall (fun e => is_SetMovieList e = false) (trace w)
  /\ App_page (state w) = Normal (ShowError generic_failure).
Proof.
  intros Hurl Hfetch Hok Hbody w. subst w. rewrite run_effects.
  unfold effects_of, try_block, on_settled. rewrite Hurl, Hfetch, Hok.
  destruct Hbody as [[e ->]| ->].
  - split; [done|]. split; [done|]. split; [by repeat constructor|done].
  - split; [done|]. split; [done|]. split; [by repeat constructor|done].
Qed.

End MoreFetchMovies.

Lemma fetchMovies_failed_request_page_witness :
  let w := @run Sample.nan_engine Sample.offline (Some (lit "dune"))
             Sample.loaded in
  errorMessage (state w) = generic_failure
  /\ movieList (state w) = Sample.movies
  /\ @App_page Sample.nan_engine (state w) = Normal (ShowError generic_failure).
Proof.
  intros w.
  destruct (@fetchMovies_failed_request_page Sample.nan_engine Sample.offline
              (Some (lit "dune")) Sample.loaded _ eq_refl)
    as (_ & Hmessage & Hlist & Hpage).
  { intros r Hr. discriminate Hr. }
  split; [exact Hmessage|]. split; [exact Hlist|exact Hpage].
Defined.

Lemma fetchMovies_malformed_query_page_witness :
  isWellFormed (lit "dune" ++ Sample.lone_surrogate) = false
  /\ let w := @run Sample.nan_engine (Sample.answers 200 Sample.body_results)
                 (Some (lit "dune" ++ Sample.lone_surrogate)) initial in
     Forall (fun e => is_Fetch e = false) (trace w)
     /\ errorMessage (state w) = generic_failure.
Proof.
  split; [reflexivity|]. intros w.
  destruct (@fetchMovies_malformed_query_page Sample.nan_engine
              (Sample.answers 200 Sample.body_results)
              (Some (lit "dune" ++ Sample.lone_surrogate)) initial eq_refl)
    as (Hnone & Hmessage & _).
  split; [exact Hnone|exact Hmessage].
Defined.

Lemma fetchMovies_unusable_body_witness :
  let w := @run Sample.nan_engine Sample.garbled None Sample.loaded in
  errorMessage (state w) = generic_failure
  /\ movieList (state w) = Sample.movies.
Proof.
  intros w.
  destruct (@fetchMovies_unusable_body Sample.nan_engine Sample.garbled None
              Sample.loaded _ _ eq_refl eq_refl eq_refl)
    as (Hmessage & Hlist & _).
  { left. by eexists. }
  split; [exact Hmessage|exact Hlist].
Defined.

(* --------------------------------------------------------------------- *)
(** *** fetchMovies: the inline failure test, and what a call writes *)

Section MoreFetchMovies2.
Context `{Engine}.
Variable fetch : jsstring -> completion Response.

(** X4: on an object body, the test data.response == 'False' is false when
    the field is missing or null, compares a string field with False
    letter by letter (so the string false does not count), and, the
    equality being the loose one, is true for an array whose only element
    is the string False. *)
Theorem inline_failure_cases props :
  (props !! lit "response" = None ->
   inline_failure (VObj props) = Normal false)
  /\ (props !! lit "response" = Some VNull ->
      inline_failure (VObj props) = Normal false)
  /\ (forall s, props !! lit "response" = Some (VStr s) ->
      inline_failure (VObj props) = Normal (bool_decide (s = lit "False")))
  /\ (props !! lit "response" = Some (VStr (lit "false")) ->
      inline_failure (VObj props) = Normal false)
  /\ (props !! lit "response" = Some (VArr [VStr (lit "False")]) ->
      inline_failure (VObj props) = Normal true).
Proof.
  unfold inline_failure, Get.
  repeat split; [intros ->|intros ->|intros s ->|intros ->|intros ->];
    reflexivity.
Qed.

#[local] Ltac no_list_write :=
  split; [vm_compute; lia|]; split; [vm_compute; lia|]; split;
  [intros [v Hv]; exfalso;
   repeat (apply elem_of_cons in Hv as [Hv|Hv]; [discriminate Hv|]);
   by apply elem_of_nil in Hv
  |intros _; reflexivity].

(** X5: a call makes at most one request and writes the result list at
    most once; it writes the list only when a 2xx response was parsed, and
    otherwise leaves the list as it was. *)
Theorem fetchMovies_writes_list_once query st :
  let w := run fetch query st in
  (length (filter (fun e => is_Fetch e = true) (trace w)) <= 1)%nat
  /\ (length (filter (fun e => is_SetMovieList e = true) (trace w)) <= 1)%nat
  /\ ((exists v, SetMovieList v ∈ trace w) ->
      exists url r data,
        endpoint (default [] query) = Normal url
        /\ fetch url = Normal r /\ ok r = true /\ json r = Normal data)
  /\ ((forall v, SetMovieList v ∉ trace w) ->
      movieList (state w) = movieList st).
Proof.
  intros w. subst w. rewrite run_effects. cbn [state trace].
  unfold effects_of, try_block, on_settled, on_data, caught.
  destruct (endpoint (default [] query)) as [url|e]; [|no_list_write].
  destruct (fetch url) as [r|e] eqn:Hfetch; [|no_list_write].
  destruct (ok r) eqn:Hok; [|no_list_write].
  destruct (json r) as [data|e] eqn:Hjson; [|no_list_write].
  assert (exists url0 r0 data0,
             Normal url = Normal url0 /\ fetch url0 = Normal r0
             /\ ok r0 = true /\ json r0 = Normal data0) as Hparsed
    by (by exists url, r, data).
  destruct (inline_failure data) as [[|]|e];
    [destruct (Get data (lit "Error")) as [v|e]
    |destruct (Get data (lit "results")) as [v|e]|];
    try no_list_write.
  all: split; [vm_compute; lia|]; split; [vm_compute; lia|];
    split; [intros _; exact Hparsed|]; intros Hnone.
  all: exfalso; eapply Hnone; cbn [app];
    repeat first [apply list_elem_of_here | apply list_elem_of_further].
Qed.

(** X6: a call does not look at the state it starts from: its trace, the
    error message and the loading flag it leaves are the same from any
    state, so a message left by an earlier call never survives; the result
    list it leaves depends on the earlier list only. *)
Theorem fetchMovies_forgets_old_message query st st' :
  let w := run fetch query st in
  let w' := run fetch query st' in
  trace w = trace w'
  /\ errorMessage (state w) = errorMessage (state w')
  /\ isLoading (state w) = isLoading (state w')
  /\ (movieList st = movieList st' ->
      movieList (state w) = movieList (state w')).
Proof.
  intros w w'. subst w w'. rewrite !run_effects. cbn [state trace].
  split; [done|]. rewrite effects_of_try_block. cbn [app].
  rewrite !replay_cons.
  split; [|split].
  - by apply replay_errorMessage_agree.
  - by apply replay_isLoading_agree.
  - intros Hlist. by apply replay_movieList_agree.
Qed.

End MoreFetchMovies2.

(* --------------------------------------------------------------------- *)
(** *** fetchMovies in turns: requests in flight, overlapping calls,
        keystrokes *)

Section Turns.
Context `{Engine}.
Variable fetch : jsstring -> completion Response.

Lemma effects_of_turns query :
  effects_of fetch query = first_turn query ++ later_turn fetch query.
Proof.
  unfold effects_of, try_block, first_turn, later_turn.
  destruct (endpoint (default [] query)); cbn [app]; [done|].
  by rewrite app_nil_r.
Qed.

Lemma effects_of_errorMessage query st st' :
  errorMessage (replay (effects_of fetch query) st)
  = errorMessage (replay (effects_of fetch query) st').
Proof.
  rewrite effects_of_try_block. cbn [app]. rewrite !replay_cons.
  by apply replay_errorMessage_agree.
Qed.

Lemma effects_of_cells query :
  Forall (fun e => writes_only_its_cells e = true) (effects_of fetch query).
Proof.
  rewrite effects_of_try_block. constructor; [done|].
  apply Forall_app. split; [|by repeat constructor].
  constructor; [done|apply try_block_cells].
Qed.

Lemma replay_after_keystroke text es st :
  Forall (fun e => writes_only_its_cells e = true) es ->
  replay es (apply_effect (SetSearchTerm text) st)
  = apply_effect (SetSearchTerm text) (replay es st).
Proof.
  intros Hes. revert st. induction Hes as [|e es He _ IH]; intros st; [done|].
  rewrite !replay_cons, <- IH. f_equal. by destruct e.
Qed.


(** X8: calls are neither cancelled nor ordered.  When a second call is
    made while the first is in flight and the response of the first
    arrives last, the result list that stays is the one of the first,
    older call, while the error message that stays is the one the second
    call left. *)
Theorem fetchMovies_late_response_wins older newer st url_older url_newer r data :
  endpoint (default [] older) = Normal url_older ->
  endpoint (default [] newer) = Normal url_newer ->
  fetch url_older = Normal r ->
  ok r = true ->
  json r = Normal data ->
  inline_failure data = Normal false ->
  let final := replay (first_turn older ++ first_turn newer
                       ++ later_turn fetch newer ++ later_turn fetch older) st in
  exists results,
    Get data (lit "results") = Normal results
    /\ movieList final = or_else results (VArr [])
    /\ errorMessage final = errorMessage (state (run fetch newer st))
    /\ isLoading final = false.
Proof.
  intros Holder Hnewer Hfetch Hok Hjson Hflag final. subst final.
  destruct (Get_after_inline_failure data false (lit "results") Hflag)
    as [results Hres].
  exists results. split; [exact Hres|].
  rewrite (app_assoc (first_turn newer)), <- effects_of_turns.
  rewrite app_assoc, replay_app.
  set (before := replay (first_turn older ++ effects_of fetch newer) st).
  assert (later_turn fetch older
          = [ConsoleLog (inl data); SetMovieList (or_else results (VArr []));
             SetIsLoading false]) as ->.
  { unfold later_turn, on_settled, on_data.
    by rewrite Holder, Hfetch, Hok, Hjson, Hflag, Hres. }
  split; [done|]. split; [|done].
  change (errorMessage before = errorMessage (state (run fetch newer st))).
  subst before. rewrite replay_app, run_effects. cbn [state].
  apply effects_of_errorMessage.
Qed.

(** X9: the text field is wired to the search text only.  An edit that
    lands at any point of a call leaves the state the call would have left
    anyway, with the search text replaced by the typed text; the field
    then shows that text; and the edit itself requests nothing. *)
Theorem edit_during_fetchMovies query st text before after :
  trace (run fetch query st) = before ++ after ->
  let w := edit text {| state := replay before st; trace := before |} in
  let final := replay after (state w) in
  final = apply_effect (SetSearchTerm text) (state (run fetch query st))
  /\ value_shown (App_search final) = text
  /\ errorMessage final = errorMessage (state (run fetch query st))
  /\ movieList final = movieList (state (run fetch query st))
  /\ isLoading final = isLoading (state (run fetch query st))
  /\ trace w = before ++ [SetSearchTerm text].
Proof.
  intros Hsplit w final. subst w final.
  rewrite run_effects in Hsplit |- *. cbn [state trace] in Hsplit |- *.
  pose proof (effects_of_cells query) as Hcells.
  rewrite Hsplit in Hcells |- *. apply Forall_app in Hcells as [_ Hafter].
  change (state (edit text {| state := replay before st; trace := before |}))
    with (apply_effect (SetSearchTerm text) (replay before st)).
  rewrite (replay_after_keystroke _ _ _ Hafter), <- replay_app.
  repeat split.
Qed.

End Turns.


Lemma fetchMovies_late_response_wins_witness :
  let older : option jsstring := None in
  let newer := Some (lit "dune") in
  let final := replay (first_turn older ++ first_turn newer
                       ++ @later_turn Sample.nan_engine Sample.popular_or_other newer
                       ++ @later_turn Sample.nan_engine Sample.popular_or_other older)
                 initial in
  movieList (state (@run Sample.nan_engine Sample.popular_or_other newer initial))
  = Sample.other_movies
  /\ movieList final = Sample.movies
  /\ isLoading final = false.
Proof.
  intros older newer final.
  destruct (@fetchMovies_late_response_wins Sample.nan_engine
              Sample.popular_or_other older newer initial _ _ _ Sample.body_results
              eq_refl eq_refl eq_refl eq_refl eq_refl eq_refl)
    as (results & Hres & Hlist & _ & Hloading).
  split; [reflexivity|]. split; [|exact Hloading].
  injection Hres as <-. exact Hlist.
Defined.

Lemma edit_during_fetchMovies_witness :
  let before := first_turn None in
  let after := @later_turn Sample.nan_engine
                 (Sample.answers 200 Sample.body_results) None in
  let w := edit (lit "dune") {| state := replay before initial; trace := before |} in
  trace (@run Sample.nan_engine (Sample.answers 200 Sample.body_results) None
           initial) = before ++ after
  /\ value_shown (App_search (replay after (state w))) = lit "dune"
  /\ movieList (replay after (state w)) = Sample.movies.
Proof.
  intros before after w.
  assert (trace (@run Sample.nan_engine (Sample.answers 200 Sample.body_results)
                   None initial) = before ++ after) as Hsplit by reflexivity.
  destruct (@edit_during_fetchMovies Sample.nan_engine
              (Sample.answers 200 Sample.body_results) None initial (lit "dune")
              before after Hsplit)
    as (_ & Hshown & _ & Hlist & _).
  split; [exact Hsplit|]. split; [exact Hshown|]. exact Hlist.
Defined.

(* --------------------------------------------------------------------- *)
(** *** The request: what the encoded query is made of *)

Import Url.

Lemma below_forallb (k : nat) (P : N -> bool) :
  forallb P (below k) = true -> forall y, (y < N.of_nat k)%N -> P y = true.
Proof.
  intros Hall y Hy. rewrite forallb_forall in Hall. apply Hall.
  apply list_elem_of_In, list_elem_of_fmap. exists (N.to_nat y).
  split; [by rewrite N2Nat.id|]. apply elem_of_seq. lia.
Qed.

Lemma hex_digit_unescaped d : (d < 16)%N -> unescaped (hex_digit d) = true.
Proof. apply (below_forallb 16 (fun d => unescaped (hex_digit d))). by vm_compute. Qed.

Lemma percent_url_safe octet :
  (octet < 256)%N -> Forall (fun c => url_safe c = true) (percent octet).
Proof.
  intros Hoctet. unfold percent. repeat constructor.
  - unfold url_safe. rewrite hex_digit_unescaped; [done|].
    apply N.Div0.div_lt_upper_bound. lia.
  - unfold url_safe. rewrite hex_digit_unescaped; [done|]. by apply N.mod_lt.
Qed.

Lemma lor_0x80 y : (y < 64)%N -> N.lor 0x80 y = (128 + y)%N.
Proof.
  intros Hy. apply N.eqb_eq.
  by apply (below_forallb 64 (fun y => N.lor 0x80 y =? 128 + y)%N).
Qed.

Lemma lor_0xC0 y : (y < 32)%N -> N.lor 0xC0 y = (192 + y)%N.
Proof.
  intros Hy. apply N.eqb_eq.
  by apply (below_forallb 32 (fun y => N.lor 0xC0 y =? 192 + y)%N).
Qed.

Lemma lor_0xE0 y : (y < 16)%N -> N.lor 0xE0 y = (224 + y)%N.
Proof.
  intros Hy. apply N.eqb_eq.
  by apply (below_forallb 16 (fun y => N.lor 0xE0 y =? 224 + y)%N).
Qed.

Lemma lor_0xF0 y : (y < 8)%N -> N.lor 0xF0 y = (240 + y)%N.
Proof.
  intros Hy. apply N.eqb_eq.
  by apply (below_forallb 8 (fun y => N.lor 0xF0 y =? 240 + y)%N).
Qed.

Lemma continuation cp shift :
  N.lor 0x80 (N.land (N.shiftr cp shift) 0x3F)
  = (128 + (cp / 2 ^ shift) mod 64)%N.
Proof.
  rewrite N.shiftr_div_pow2. change 0x3F%N with (N.ones 6).
  rewrite N.land_ones. change (2 ^ 6)%N with 64%N.
  apply lor_0x80. by apply N.mod_lt.
Qed.

(** The octets of a code point, in arithmetic. *)
Lemma utf8_arith cp :
  (cp < 2 ^ 21)%N ->
  utf8 cp
  = if (cp <? 0x80)%N then [cp]
    else if (cp <? 0x800)%N then [192 + cp / 64; 128 + cp mod 64]%N
    else if (cp <? 0x10000)%N
         then [224 + cp / 4096; 128 + (cp / 64) mod 64; 128 + cp mod 64]%N
         else [240 + cp / 262144; 128 + (cp / 4096) mod 64;
               128 + (cp / 64) mod 64; 128 + cp mod 64]%N.
Proof.
  intros Hcp. unfold utf8. rewrite !continuation, !N.shiftr_div_pow2.
  change (2 ^ 0)%N with 1%N. rewrite N.div_1_r.
  change (2 ^ 6)%N with 64%N. change (2 ^ 12)%N with 4096%N.
  change (2 ^ 18)%N with 262144%N.
  destruct (cp <? 0x80)%N eqn:H1; [done|].
  destruct (cp <? 0x800)%N eqn:H2.
  { rewrite lor_0xC0; [done|].
    apply N.ltb_lt in H2. apply N.Div0.div_lt_upper_bound. lia. }
  destruct (cp <? 0x10000)%N eqn:H3.
  { rewrite lor_0xE0; [done|].
    apply N.ltb_lt in H3. apply N.Div0.div_lt_upper_bound. lia. }
  rewrite lor_0xF0; [done|].
  apply N.Div0.div_lt_upper_bound. change (2 ^ 21)%N with 2097152%N in Hcp. lia.
Qed.

Lemma utf8_octets cp :
  (cp < 2 ^ 21)%N -> Forall (fun octet => (octet < 256)%N) (utf8 cp).
Proof.
  intros Hcp. rewrite (utf8_arith cp Hcp).
  change (2 ^ 21)%N with 2097152%N in Hcp.
  pose proof (N.mod_lt cp 64) as Hr0.
  pose proof (N.mod_lt (cp / 64) 64) as Hr1.
  pose proof (N.mod_lt (cp / 4096) 64) as Hr2.
  generalize dependent (cp mod 64)%N. intros r0 Hr0.
  generalize dependent ((cp / 64) mod 64)%N. intros r1 Hr1.
  generalize dependent ((cp / 4096) mod 64)%N. intros r2 Hr2.
  destruct (cp <? 0x80)%N eqn:H1.
  { apply N.ltb_lt in H1. repeat constructor. lia. }
  destruct (cp <? 0x800)%N eqn:H2.
  { apply N.ltb_lt in H2.
    assert (cp / 64 < 32)%N by (apply N.Div0.div_lt_upper_bound; lia).
    repeat constructor; lia. }
  destruct (cp <? 0x10000)%N eqn:H3.
  { apply N.ltb_lt in H3.
    assert (cp / 4096 < 16)%N by (apply N.Div0.div_lt_upper_bound; lia).
    repeat constructor; lia. }
  assert (cp / 262144 < 8)%N by (apply N.Div0.div_lt_upper_bound; lia).
  repeat constructor; lia.
Qed.

Lemma percent_all_url_safe cp :
  (cp < 2 ^ 21)%N -> Forall (fun c => url_safe c = true) (percent_all (utf8 cp)).
Proof.
  intros Hcp. unfold percent_all. apply Forall_concat, Forall_fmap.
  eapply Forall_impl; [apply (utf8_octets cp Hcp)|].
  intros octet Hoctet. by apply percent_url_safe.
Qed.

Lemma surrogate_pair_bound lead trail :
  is_leading_surrogate lead = true ->
  is_trailing_surrogate trail = true ->
  (0x10000 <= UTF16SurrogatePairToCodePoint lead trail < 2 ^ 21)%N.
Proof.
  unfold is_leading_surrogate, is_trailing_surrogate,
    UTF16SurrogatePairToCodePoint.
  intros [H1 H2]%andb_true_iff [H3 H4]%andb_true_iff.
  apply N.leb_le in H1, H2, H3, H4.
  change (2 ^ 21)%N with 2097152%N. lia.
Qed.

Lemma encodeURIComponent_url_safe (str q : jsstring) :
  code_units str ->
  encodeURIComponent str = Normal q ->
  Forall (fun c => url_safe c = true) q.
Proof.
  revert q. induction str as [|c rest IH IH2] using jsstring_pair_ind;
    intros q Hunits.
  { by intros [= <-]. }
  apply Forall_cons in Hunits as [Hc Hrest].
  cbn [encodeURIComponent].
  destruct (unescaped c) eqn:Hu.
  { destruct (encodeURIComponent rest) as [r|]; [|done]. intros [= <-].
    constructor; [|by apply IH]. unfold url_safe. by rewrite Hu. }
  destruct (is_trailing_surrogate c); [done|].
  destruct (is_leading_surrogate c) eqn:Hlead.
  - destruct rest as [|d rest']; [done|].
    destruct (is_trailing_surrogate d) eqn:Htrail; [|done].
    apply Forall_cons in Hrest as [_ Hrest'].
    destruct (encodeURIComponent rest') as [r|] eqn:Hr; [|done].
    intros [= <-]. apply Forall_app. split.
    + apply percent_all_url_safe.
      by apply (surrogate_pair_bound c d Hlead Htrail).
    + by apply (IH2 d rest' eq_refl).
  - destruct (encodeURIComponent rest) as [r|]; [|done]. intros [= <-].
    apply Forall_app. split; [|by apply IH].
    apply percent_all_url_safe. change (2 ^ 21)%N with 2097152%N. lia.
Qed.

Lemma encodeURIComponent_unescaped (str : jsstring) :
  Forall (fun c => unescaped c = true) str ->
  encodeURIComponent str = Normal str.
Proof.
  induction 1 as [|c rest Hc _ IH]; [done|].
  cbn [encodeURIComponent]. by rewrite Hc, IH.
Qed.

(** X10: the request of a non-empty query is the search address followed
    by the encoded query, and the encoded query is made only of letters,
    digits, the marks -_.!~*'() and percent signs: no space, ampersand,
    equals sign, hash, question mark, slash or plus of the query reaches
    the address as such, so the query cannot add or change a parameter. *)
Theorem endpoint_url_safe (query : jsstring) url :
  query <> [] ->
  code_units query ->
  endpoint query = Normal url ->
  exists q,
    encodeURIComponent query = Normal q
    /\ url = API_BASE_URL ++ lit "/search/movie?query=" ++ q
    /\ Forall (fun c => url_safe c = true) q
    /\ forall c, c ∈ lit " &=#?/+" -> c ∉ q.
Proof.
  intros Hne Hunits. unfold endpoint. cbn [ToBoolean].
  rewrite bool_decide_eq_false_2 by done. cbn [negb].
  destruct (encodeURIComponent query) as [q|] eqn:Hq; [|done].
  intros [= <-]. exists q. split; [done|]. split; [done|].
  pose proof (encodeURIComponent_url_safe query q Hunits Hq) as Hsafe.
  split; [exact Hsafe|].
  intros c Hc Hin. rewrite Forall_forall in Hsafe.
  specialize (Hsafe c Hin).
  vm_compute lit in Hc.
  repeat (apply elem_of_cons in Hc as [->|Hc]; [by vm_compute in Hsafe|]).
  by apply elem_of_nil in Hc.
Qed.

(** X11: a query made only of letters, digits and the marks -_.!~*'() is
    sent as it was typed. *)
Theorem endpoint_plain_query (query : jsstring) :
  query <> [] ->
  Forall (fun c => unescaped c = true) query ->
  endpoint query = Normal (API_BASE_URL ++ lit "/search/movie?query=" ++ query).
Proof.
  intros Hne Hplain. unfold endpoint. cbn [ToBoolean].
  rewrite bool_decide_eq_false_2 by done. cbn [negb].
  by rewrite (encodeURIComponent_unescaped query Hplain).
Qed.

Lemma endpoint_url_safe_witness :
  lit "R&B = soul?" <> [] /\ code_units (lit "R&B = soul?")
  /\ endpoint (lit "R&B = soul?")
     = Normal (lit "https://api.themoviedb.org/3/search/movie?query=R%26B%20%3D%20soul%3F").
Proof.
  assert (lit "R&B = soul?" <> []) as Hne by discriminate.
  assert (code_units (lit "R&B = soul?")) as Hunits.
  { unfold code_units. vm_compute lit. repeat constructor. }
  split; [exact Hne|]. split; [exact Hunits|].
  destruct (endpoint_url_safe (lit "R&B = soul?") _ Hne Hunits eq_refl)
    as (q & Hq & Hurl & _).
  reflexivity.
Defined.

Lemma endpoint_plain_query_witness :
  endpoint (lit "dune") = Normal (lit "https://api.themoviedb.org/3/search/movie?query=dune").
Proof.
  apply (endpoint_plain_query (lit "dune")); [discriminate|].
  vm_compute lit. repeat constructor.
Defined.

(* --------------------------------------------------------------------- *)
(** *** The request: different queries, different addresses *)

Lemma hex_digit_inj d d' :
  (d < 16)%N -> (d' < 16)%N -> hex_digit d = hex_digit d' -> d = d'.
Proof.
  intros Hd Hd' Heq.
  pose proof (below_forallb 16
    (fun d => forallb (fun d' => implb (hex_digit d =? hex_digit d')%N
                                       (d =? d')%N) (below 16))
    eq_refl d Hd) as Hall.
  pose proof (below_forallb 16 _ Hall d' Hd') as Himp.
  cbv beta in Himp. rewrite Heq, N.eqb_refl in Himp.
  by apply N.eqb_eq.
Qed.

Lemma percent_inj b b' (r r' : jsstring) :
  (b < 256)%N -> (b' < 256)%N ->
  percent b ++ r = percent b' ++ r' -> b = b' /\ r = r'.
Proof.
  intros Hb Hb'. unfold percent. cbn [app]. intros [= Hhi Hlo ->].
  split; [|done].
  apply hex_digit_inj in Hhi;
    [|apply N.Div0.div_lt_upper_bound; lia..].
  apply hex_digit_inj in Hlo; [|by apply N.mod_lt..].
  rewrite (N.div_mod' b 16), (N.div_mod' b' 16). congruence.
Qed.

Lemma percent_all_cons b bs : percent_all (b :: bs) = percent b ++ percent_all bs.
Proof. reflexivity. Qed.

Lemma code_point_digits cp :
  (cp = 64 * (cp / 64) + cp mod 64
   /\ cp / 64 = 64 * (cp / 4096) + (cp / 64) mod 64
   /\ cp / 4096 = 64 * (cp / 262144) + (cp / 4096) mod 64)%N.
Proof.
  split; [apply N.div_mod'|]. split.
  - rewrite (N.div_mod' (cp / 64) 64) at 1.
    by rewrite N.Div0.div_div.
  - rewrite (N.div_mod' (cp / 4096) 64) at 1.
    by rewrite N.Div0.div_div.
Qed.

(** The encodings of two code points never overlap: no encoding is the
    start of another one. *)
Lemma percent_all_utf8_inj cp cp' (r r' : jsstring) :
  (cp < 2 ^ 21)%N -> (cp' < 2 ^ 21)%N ->
  percent_all (utf8 cp) ++ r = percent_all (utf8 cp') ++ r' ->
  cp = cp' /\ r = r'.
Proof.
  intros Hcp Hcp'.
  pose proof (utf8_octets cp Hcp) as Hoctets.
  pose proof (utf8_octets cp' Hcp') as Hoctets'.
  rewrite (utf8_arith cp Hcp) in Hoctets |- *.
  rewrite (utf8_arith cp' Hcp') in Hoctets' |- *.
  change (2 ^ 21)%N with 2097152%N in Hcp, Hcp'.
  destruct (code_point_digits cp) as (E0 & E1 & E2).
  destruct (code_point_digits cp') as (E0' & E1' & E2').
  pose proof (N.mod_lt cp 64) as R0.
  pose proof (N.mod_lt (cp / 64) 64) as R1.
  pose proof (N.mod_lt (cp / 4096) 64) as R2.
  pose proof (N.mod_lt cp' 64) as R0'.
  pose proof (N.mod_lt (cp' / 64) 64) as R1'.
  pose proof (N.mod_lt (cp' / 4096) 64) as R2'.
  generalize dependent (cp mod 64)%N. intros r0 ? ? ?.
  generalize dependent ((cp / 64) mod 64)%N. intros r1 ? ? ?.
  generalize dependent ((cp / 4096) mod 64)%N. intros r2 ? ? ?.
  generalize dependent (cp' mod 64)%N. intros r0' ? ? ?.
  generalize dependent ((cp' / 64) mod 64)%N. intros r1' ? ? ?.
  generalize dependent ((cp' / 4096) mod 64)%N. intros r2' ? ? ?.
  generalize dependent (cp / 262144)%N. intros d3 ? ?.
  generalize dependent (cp / 4096)%N. intros d2 ? ? ?.
  generalize dependent (cp / 64)%N. intros d1 ? ? ?.
  generalize dependent (cp' / 262144)%N. intros d3' ? ?.
  generalize dependent (cp' / 4096)%N. intros d2' ? ? ?.
  generalize dependent (cp' / 64)%N. intros d1' ? ? ?.
  destruct (cp <? 0x80)%N eqn:H1; destruct (cp <? 0x800)%N eqn:H2;
    destruct (cp <? 0x10000)%N eqn:H3;
    destruct (cp' <? 0x80)%N eqn:H1'; destruct (cp' <? 0x800)%N eqn:H2';
    destruct (cp' <? 0x10000)%N eqn:H3';
    rewrite ?N.ltb_lt, ?N.ltb_ge in *; try lia;
    rewrite !percent_all_cons, <- !app_assoc;
    change (percent_all []) with (@nil N); cbn [app];
    intros Heq;
    repeat match goal with
           | H : Forall _ (_ :: _) |- _ => apply Forall_cons in H as [? H]
           end;
    repeat match goal with
           | H : percent _ ++ _ = percent _ ++ _ |- _ =>
               apply percent_inj in H as [? H]; [|assumption..]
           end;
    first [split; [lia|congruence] | exfalso; lia].
Qed.

Lemma percent_all_utf8_head cp :
  exists rest, percent_all (utf8 cp) = 37%N :: rest.
Proof.
  unfold utf8.
  destruct (cp <? 0x80)%N; [by eexists|].
  destruct (cp <? 0x800)%N; [by eexists|].
  destruct (cp <? 0x10000)%N; by eexists.
Qed.

Lemma surrogate_pair_inj lead trail lead' trail' :
  is_leading_surrogate lead = true -> is_trailing_surrogate trail = true ->
  is_leading_surrogate lead' = true -> is_trailing_surrogate trail' = true ->
  UTF16SurrogatePairToCodePoint lead trail
  = UTF16SurrogatePairToCodePoint lead' trail' ->
  lead = lead' /\ trail = trail'.
Proof.
  unfold is_leading_surrogate, is_trailing_surrogate,
    UTF16SurrogatePairToCodePoint.
  intros [H1 H2]%andb_true_iff [H3 H4]%andb_true_iff
         [H5 H6]%andb_true_iff [H7 H8]%andb_true_iff.
  apply N.leb_le in H1, H2, H3, H4, H5, H6, H7, H8. lia.
Qed.

Lemma encodeURIComponent_token c (rest q : jsstring) :
  encodeURIComponent (c :: rest) = Normal q ->
  exists read out rest' q',
    c :: rest = read ++ rest' /\ token read out
    /\ encodeURIComponent rest' = Normal q' /\ q = out ++ q'.
Proof.
  cbn [encodeURIComponent].
  destruct (unescaped c) eqn:Hu.
  { destruct (encodeURIComponent rest) as [r|] eqn:Hr; [|done]. intros [= <-].
    exists [c], [c], rest, r. repeat split; [by constructor|done]. }
  destruct (is_trailing_surrogate c) eqn:Htrail; [done|].
  destruct (is_leading_surrogate c) eqn:Hlead.
  - destruct rest as [|d rest']; [done|].
    destruct (is_trailing_surrogate d) eqn:Htrail'; [|done].
    destruct (encodeURIComponent rest') as [r|] eqn:Hr; [|done]. intros [= <-].
    eexists [c; d], _, rest', r. repeat split; [by constructor|done].
  - destruct (encodeURIComponent rest) as [r|] eqn:Hr; [|done]. intros [= <-].
    eexists [c], _, rest, r. repeat split; [by constructor|done].
Qed.

Lemma token_inj read out read' out' (q q' : jsstring) :
  token read out -> token read' out' ->
  code_units read -> code_units read' ->
  out ++ q = out' ++ q' ->
  read = read' /\ q = q'.
Proof.
  assert (unescaped 37 = false) as Hpercent by (by vm_compute).
  assert (forall c, (c < 65536)%N -> (c < 2 ^ 21)%N) as Hsmall
    by (intros c Hc; change (2 ^ 21)%N with 2097152%N; lia).
  intros Htoken Htoken' Hunits Hunits' Heq.
  destruct Htoken as [c Hu|c Hu Ht Hl|c d Hu Ht Hl Ht'];
    destruct Htoken' as [c' Hu'|c' Hu' Ht0 Hl'|c' d' Hu' Ht0 Hl' Ht1].
  - cbn [app] in Heq. by injection Heq as -> ->.
  - destruct (percent_all_utf8_head c') as [tail Htail].
    rewrite Htail in Heq. cbn [app] in Heq. injection Heq as -> _. congruence.
  - destruct (percent_all_utf8_head (UTF16SurrogatePairToCodePoint c' d'))
      as [tail Htail].
    rewrite Htail in Heq. cbn [app] in Heq. injection Heq as -> _. congruence.
  - destruct (percent_all_utf8_head c) as [tail Htail].
    rewrite Htail in Heq. cbn [app] in Heq. injection Heq as <- _. congruence.
  - apply Forall_cons in Hunits as [Hc _]. apply Forall_cons in Hunits' as [Hc' _].
    apply percent_all_utf8_inj in Heq as [-> ->]; [done|by apply Hsmall..].
  - apply Forall_cons in Hunits as [Hc _].
    pose proof (surrogate_pair_bound c' d' Hl' Ht1) as [Hlow Hhigh].
    apply percent_all_utf8_inj in Heq as [Heq _];
      [|by apply Hsmall|exact Hhigh]. lia.
  - destruct (percent_all_utf8_head (UTF16SurrogatePairToCodePoint c d))
      as [tail Htail].
    rewrite Htail in Heq. cbn [app] in Heq. injection Heq as <- _. congruence.
  - apply Forall_cons in Hunits' as [Hc' _].
    pose proof (surrogate_pair_bound c d Hl Ht') as [Hlow Hhigh].
    apply percent_all_utf8_inj in Heq as [Heq _];
      [|exact Hhigh|by apply Hsmall]. lia.
  - pose proof (surrogate_pair_bound c d Hl Ht') as [_ Hhigh].
    pose proof (surrogate_pair_bound c' d' Hl' Ht1) as [_ Hhigh'].
    apply percent_all_utf8_inj in Heq as [Heq ->]; [|assumption..].
    by apply surrogate_pair_inj in Heq as [-> ->].
Qed.

Lemma token_nonempty read out : token read out -> out <> [].
Proof.
  intros [c _|c _ _ _|c d _ _ _ _]; [done|..].
  - by destruct (percent_all_utf8_head c) as [tail ->].
  - by destruct (percent_all_utf8_head (UTF16SurrogatePairToCodePoint c d))
      as [tail ->].
Qed.

(** Different strings have different encodings. *)
Lemma encodeURIComponent_inj (a b q : jsstring) :
  code_units a -> code_units b ->
  encodeURIComponent a = Normal q ->
  encodeURIComponent b = Normal q ->
  a = b.
Proof.
  remember (length a) as n eqn:Hn. revert a b q Hn.
  induction n as [n IH] using lt_wf_ind. intros a b q Hn Ha Hb Hqa Hqb.
  destruct a as [|c ra], b as [|c' rb]; [done|..].
  - injection Hqa as <-.
    apply encodeURIComponent_token in Hqb
      as (read & out & rest & q' & _ & Htoken & _ & Hq).
    apply token_nonempty in Htoken. by destruct out.
  - injection Hqb as <-.
    apply encodeURIComponent_token in Hqa
      as (read & out & rest & q' & _ & Htoken & _ & Hq).
    apply token_nonempty in Htoken. by destruct out.
  - apply encodeURIComponent_token in Hqa
      as (read & out & rest & qa & Hsplit & Htoken & Hrest & Hq).
    apply encodeURIComponent_token in Hqb
      as (read' & out' & rest' & qb & Hsplit' & Htoken' & Hrest' & Hq').
    rewrite Hsplit in Ha, Hn |- *. rewrite Hsplit' in Hb |- *.
    apply Forall_app in Ha as [Hread Ha]. apply Forall_app in Hb as [Hread' Hb].
    rewrite Hq in Hq'.
    destruct (token_inj _ _ _ _ _ _ Htoken Htoken' Hread Hread' Hq')
      as [<- <-].
    f_equal. apply (IH (length rest)) with (q := qa); try done.
    rewrite Hn, length_app.
    destruct Htoken; cbn [length]; lia.
Qed.

Lemma Normal_inj {A} (a b : A) : Normal a = Normal b -> a = b.
Proof. by intros [= ->]. Qed.

(** X12: two different searches never request the same address: when two
    queries lead to the same request, they are the same query. *)
Theorem endpoint_inj (query query' : jsstring) url :
  code_units query -> code_units query' ->
  endpoint query = Normal url ->
  endpoint query' = Normal url ->
  query = query'.
Proof.
  assert (forall q : jsstring,
             API_BASE_URL ++ lit "/search/movie?query=" ++ q
             <> API_BASE_URL ++ lit "/discover/movie?sort_by=popularity.desc")
    as Hdiffer.
  { intros q Heq. apply app_inv_head in Heq.
    apply (f_equal (fun l : jsstring => l !! 1%nat)) in Heq.
    vm_compute in Heq. discriminate Heq. }
  intros Hunits Hunits'. unfold endpoint. cbn [ToBoolean].
  destruct query as [|c s], query' as [|c' s']; [done|..].
  - rewrite bool_decide_eq_true_2 by done.
    rewrite bool_decide_eq_false_2 by done. cbn [negb].
    destruct (encodeURIComponent (c' :: s')) as [q|];
      cbn [mbind completion_bind]; [|by intros _ [=]].
    intros Hurl Hurl'. rewrite <- Hurl in Hurl'.
    apply Normal_inj in Hurl'. by apply Hdiffer in Hurl'.
  - rewrite bool_decide_eq_false_2 by done.
    rewrite bool_decide_eq_true_2 by done. cbn [negb].
    destruct (encodeURIComponent (c :: s)) as [q|];
      cbn [mbind completion_bind]; [|by intros [=]].
    intros Hurl Hurl'. rewrite <- Hurl' in Hurl.
    apply Normal_inj in Hurl. by apply Hdiffer in Hurl.
  - rewrite !bool_decide_eq_false_2 by done. cbn [negb].
    destruct (encodeURIComponent (c :: s)) as [q|] eqn:Hq;
      cbn [mbind completion_bind]; [|by intros [=]].
    destruct (encodeURIComponent (c' :: s')) as [q'|] eqn:Hq';
      cbn [mbind completion_bind]; [|by intros _ [=]].
    intros Hurl Hurl'. rewrite <- Hurl in Hurl'.
    apply Normal_inj in Hurl'. do 2 apply app_inv_head in Hurl'. subst q'.
    by apply (encodeURIComponent_inj _ _ q).
Qed.

Lemma endpoint_inj_witness :
  code_units (lit "dune")
  /\ endpoint (lit "dune")
     = Normal (lit "https://api.themoviedb.org/3/search/movie?query=dune")
  /\ lit "dune" = lit "dune".
Proof.
  assert (code_units (lit "dune")) as Hunits.
  { unfold code_units. vm_compute lit. repeat constructor. }
  split; [exact Hunits|]. split; [reflexivity|].
  exact (endpoint_inj (lit "dune") (lit "dune") _ Hunits Hunits eq_refl eq_refl).
Defined.

(* --------------------------------------------------------------------- *)
(** *** The page: the list of cards *)

Section PageProperties.
Context `{Engine}.

Lemma list_items_cons movie movies :
  list_items (VArr (movie :: movies))
  = (key ← Get movie (lit "id");
     card ← MovieCard movie;
     cards ← list_items (VArr movies);
     Normal (card :: cards)).
Proof. reflexivity. Qed.



Lemma list_items_throws movies movie :
  movie ∈ movies ->
  (exists e, Get movie (lit "id") = Throw e)
  \/ (exists e, MovieCard movie = Throw e) ->
  exists e, list_items (VArr movies) = Throw e.
Proof.
  intros Hin Hbad.
  induction movies as [|m movies IH]; [by apply elem_of_nil in Hin|].
  rewrite list_items_cons.
  destruct (Get m (lit "id")) as [key|e] eqn:Hkey; [|by eexists].
  destruct (MovieCard m) as [card|e] eqn:Hcard; [|by eexists].
  apply elem_of_cons in Hin as [->|Hin].
  { destruct Hbad as [[e He]|[e He]]; congruence. }
  destruct (IH Hin) as [e ->]. by eexists.
Qed.

(** X14: one entry of the result list that cannot be rendered (null, for
    which reading the key already throws, or a record on which MovieCard
    throws) takes the whole list down: the page throws, whatever the other
    entries are. *)
Theorem App_page_one_bad_movie st movies movie :
  isLoading st = false ->
  ToBoolean (errorMessage st) = false ->
  movieList st = VArr movies ->
  movie ∈ movies ->
  movie = VNull \/ (exists e, MovieCard movie = Throw e) ->
  exists e, App_page st = Throw e.
Proof.
  intros Hloading Hmessage Hlist Hin Hbad.
  destruct (list_items_throws movies movie Hin) as [e He].
  { destruct Hbad as [->|Hbad]; [left; by eexists|by right]. }
  exists e. unfold App_page. by rewrite Hloading, Hmessage, Hlist, He.
Qed.

Variable fetch : jsstring -> completion Response.

(** X15: the success path stores results || [] without looking at what it
    is.  A 2xx body whose results is truthy but not an array (a string, a
    number, an object) becomes the result list as it is, and the page then
    throws a TypeError, the value having no method map. *)
Theorem fetchMovies_results_not_an_array query st url r data results :
  endpoint (default [] query) = Normal url ->
  fetch url = Normal r ->
  ok r = true ->
  json r = Normal data ->
  inline_failure data = Normal false ->
  Get data (lit "results") = Normal results ->
  ToBoolean results = true ->
  (forall elems, results <> VArr elems) ->
  let w := run fetch query st in
  movieList (state w) = results
  /\ errorMessage (state w) = VStr []
  /\ App_page (state w) = Throw TypeError.
Proof.
  intros Hurl Hfetch Hok Hjson Hflag Hres Htruthy Hnot w. subst w.
  rewrite run_effects, (effects_of_parsed _ _ _ _ _ Hurl Hfetch Hok Hjson).
  unfold on_data. rewrite Hflag, Hres, (or_else_truthy _ _ Htruthy).
  split; [done|]. split; [done|].
  unfold App_page. cbn.
  destruct results; try done. by destruct (Hnot elems).
Qed.

End PageProperties.


Lemma App_page_one_bad_movie_witness :
  VNull ∈ [VObj {[ lit "id" := VNum one ]}; VNull]
  /\ exists e, @App_page Sample.nan_engine Sample.loaded_with_null = Throw e.
Proof.
  assert (VNull ∈ [VObj {[ lit "id" := VNum one ]}; VNull]) as Hin
    by (apply list_elem_of_further, list_elem_of_here).
  split; [exact Hin|].
  apply (@App_page_one_bad_movie Sample.nan_engine Sample.loaded_with_null
           _ VNull eq_refl eq_refl eq_refl Hin).
  by left.
Defined.

Lemma fetchMovies_results_not_an_array_witness :
  let w := @run Sample.nan_engine (Sample.answers 200 Sample.body_no_array)
             None initial in
  movieList (state w) = VStr (lit "none")
  /\ errorMessage (state w) = VStr []
  /\ @App_page Sample.nan_engine (state w) = Throw TypeError.
Proof.
  eapply (@fetchMovies_results_not_an_array Sample.nan_engine
            (Sample.answers 200 Sample.body_no_array) None initial);
    try reflexivity.
  intros elems Heq. discriminate Heq.
Defined.

(* --------------------------------------------------------------------- *)
(** *** MovieCard: records that render, records that do not *)

Section MoreCard.
Context `{Engine}.

(** X16: a record of the data model always renders.  The heading and the
    alternative text of the poster are both its title and the language
    paragraph is its language code, each handed on as it is (undefined
    when the record has none).  Without a poster path, or with the empty
    string, the image is the placeholder /No-Poster.png; with a non-empty
    path it is the image address of the service followed by the path as it
    is (the fixed part ends in a slash, so a path that starts with one
    gives two in a row). *)
Theorem MovieCard_summary props :
  movie_summary (VObj props) ->
  exists card,
    MovieCard (VObj props) = Normal card
    /\ h3 card = default VUndefined (props !! lit "title")
    /\ img_alt card = h3 card
    /\ p_lang card = default VUndefined (props !! lit "original_language")
    /\ img_src card
       = match props !! lit "poster_path" with
         | Some (VStr (c :: path)) =>
             lit "https://image.tmdb.org/t/p/w500/" ++ c :: path
         | _ => lit "/No-Poster.png"
         end.
Proof.
  intros Hmovie. destruct (MovieCard_renders _ Hmovie) as [card Hcard].
  exists card. split; [exact Hcard|].
  destruct Hmovie as (props' & [= <-] & _ & _ & Hposter).
  unfold MovieCard, Get in Hcard. cbn [mbind completion_bind] in Hcard.
  destruct (poster _) as [src|] eqn:Hsrc;
    cbn [mbind completion_bind] in Hcard; [|done].
  destruct (rating _); cbn [mbind completion_bind] in Hcard; [|done].
  destruct (year _); cbn [mbind completion_bind] in Hcard; [|done].
  injection Hcard as <-. cbn [h3 img_alt p_lang img_src].
  repeat split.
  destruct Hposter as [Hnone|[[|c path] Hsome]].
  - rewrite Hnone in Hsrc |- *. by injection Hsrc as <-.
  - rewrite Hsome in Hsrc |- *. by injection Hsrc as <-.
  - rewrite Hsome in Hsrc |- *. by injection Hsrc as <-.
Qed.

(** X17: what makes the card throw instead of rendering: a movie that is
    null or undefined (its fields cannot be read), a vote average that is
    truthy but not a number (it has no method toFixed, as the string 7.5),
    and a release date that is truthy but not a string (no method
    split). *)
Theorem MovieCard_throws props v :
  MovieCard VNull = Throw TypeError
  /\ MovieCard VUndefined = Throw TypeError
  /\ (props !! lit "vote_average" = Some v -> ToBoolean v = true ->
      (forall x, v <> VNum x) ->
      exists e, MovieCard (VObj props) = Throw e)
  /\ (props !! lit "release_date" = Some v -> ToBoolean v = true ->
      (forall s, v <> VStr s) ->
      exists e, MovieCard (VObj props) = Throw e).
Proof.
  split; [done|]. split; [done|]. split.
  - intros Hvote Htruthy Hnot. unfold MovieCard, Get.
    cbn [mbind completion_bind]. rewrite Hvote. cbn [default from_option id].
    destruct (poster _); cbn [mbind completion_bind]; [|by eexists].
    assert (rating v = Throw TypeError) as ->; [|by eexists].
    unfold rating. rewrite Htruthy. destruct v; try done. by destruct (Hnot n).
  - intros Hdate Htruthy Hnot. unfold MovieCard, Get.
    cbn [mbind completion_bind]. rewrite Hdate. cbn [default from_option id].
    destruct (poster _); cbn [mbind completion_bind]; [|by eexists].
    destruct (rating _); cbn [mbind completion_bind]; [|by eexists].
    assert (year v = Throw TypeError) as ->; [|by eexists].
    unfold year. rewrite Htruthy. destruct v; try done. by destruct (Hnot s).
Qed.

End MoreCard.

Lemma MovieCard_summary_witness :
  exists card,
    @MovieCard Sample.nan_engine Sample.dune = Normal card
    /\ h3 card = VStr (lit "Dune")
    /\ img_alt card = VStr (lit "Dune")
    /\ p_lang card = VStr (lit "en")
    /\ img_src card = lit "/No-Poster.png".
Proof.
  destruct (@MovieCard_summary Sample.nan_engine
              (<[ lit "title" := VStr (lit "Dune") ]>
              (<[ lit "vote_average" := VNum Sample.n7_543 ]>
              (<[ lit "release_date" := VStr (lit "2024-05-15") ]>
                 {[ lit "original_language" := VStr (lit "en") ]}))))
    as (card & Hcard & H3 & Halt & Hlang).
  { eexists. split; [reflexivity|].
    split; [right; by eexists|]. split; [right; by eexists|by left]. }
  exists card. split; [exact Hcard|].
  vm_compute in Hcard. injection Hcard as <-. by vm_compute.
Defined.

(* --------------------------------------------------------------------- *)
(** *** MovieCard: the rating and the year *)

Lemma string_of_uint_digits d :
  Forall (fun c => is_digit c = true) (lit (NilEmpty.string_of_uint d)).
Proof.
  induction d; cbn [NilEmpty.string_of_uint]; unfold lit; fold lit;
    constructor; done.
Qed.

Lemma decimal_digits n :
  Forall (fun c => is_digit c = true) (decimal n) /\ decimal n <> [].
Proof.
  unfold decimal, NilZero.string_of_uint.
  destruct (N.to_uint n) eqn:Hn; try (split; [apply string_of_uint_digits|done]).
  split; [by repeat constructor|done].
Qed.

Section Rating.
Context `{Engine}.

Lemma rating_tenths neg m e :
  m <> 0%N ->
  at_least_1e21 m e = false ->
  rating (VNum (Finite neg m e))
  = Normal ((if neg then lit "-" else [])
            ++ decimal (nearest_tenths m e / 10) ++ lit "."
            ++ decimal (nearest_tenths m e mod 10)).
Proof.
  intros Hm Hsmall. unfold rating. cbn [ToBoolean is_zero].
  apply N.eqb_neq in Hm. rewrite Hm. cbn [negb].
  unfold toFixed1. rewrite Hsmall, Hm. cbn [negb].
  by rewrite andb_true_r.
Qed.


(** X19: the shape of that text: an optional minus sign, at least one
    digit, a point, and exactly one digit. *)
Theorem rating_shape neg m e :
  m <> 0%N ->
  at_least_1e21 m e = false ->
  exists whole tenth,
    rating (VNum (Finite neg m e))
    = Normal ((if neg then lit "-" else []) ++ whole ++ lit "." ++ [tenth])
    /\ whole <> []
    /\ Forall (fun c => is_digit c = true) whole
    /\ is_digit tenth = true.
Proof.
  intros Hm Hsmall.
  rewrite (rating_tenths neg m e Hm Hsmall).
  set (n := nearest_tenths m e). clearbody n.
  assert (n `mod` 10 < 10)%N as Hd by (by apply N.mod_lt).
  rewrite (decimal_digit _ Hd).
  generalize dependent (n `mod` 10)%N. intros k Hk.
  destruct (decimal_digits (n / 10)) as [Hdigits Hne].
  exists (decimal (n / 10)), (48 + k)%N. repeat split; try done.
  unfold is_digit. apply andb_true_iff. split; apply N.leb_le; lia.
Qed.

End Rating.


Lemma rating_shape_witness :
  exists whole tenth,
    @rating Sample.nan_engine (VNum Sample.n7_543)
    = Normal (whole ++ lit "." ++ [tenth])
    /\ whole <> [] /\ is_digit tenth = true.
Proof.
  destruct (@rating_shape Sample.nan_engine false 8492662997313913 (-50))
    as (whole & tenth & Hrating & Hne & _ & Hdigit); [done|reflexivity|].
  exists whole, tenth. split; [exact Hrating|]. split; [exact Hne|exact Hdigit].
Defined.

Lemma split_first_piece sep (s : jsstring) :
  exists y pieces,
    split sep s = y :: pieces
    /\ (sep ∉ y)
    /\ ((s = y /\ pieces = [])
        \/ exists rest, s = y ++ sep :: rest /\ pieces = split sep rest).
Proof.
  induction s as [|c s (y & pieces & Hsplit & Hy & Hshape)].
  { exists [], []. split; [done|]. split; [apply not_elem_of_nil|by left]. }
  cbn [split]. destruct (c =? sep)%N eqn:Hc.
  - apply N.eqb_eq in Hc as ->.
    exists [], (split sep s). split; [done|].
    split; [apply not_elem_of_nil|]. right. by exists s.
  - apply N.eqb_neq in Hc. rewrite Hsplit.
    exists (c :: y), pieces. split; [done|]. split.
    + intros [->|Hin]%elem_of_cons; done.
    + destruct Hshape as [[-> ->]|(rest & -> & ->)]; [by left|].
      right. by exists rest.
Qed.

(** X20: the year paragraph of any string release date: the empty string
    gives N/A like a missing date; any other string gives its part before
    the first hyphen (the whole string when it has none), whatever that
    part is: it has no hyphen in it, and it is empty when the date starts
    with a hyphen. *)
Theorem year_before_first_hyphen c (s : jsstring) :
  year (VStr []) = Normal (VStr (lit "N/A"))
  /\ exists y,
       year (VStr (c :: s)) = Normal (VStr y)
       /\ (45%N ∉ y)
       /\ (c :: s = y \/ exists rest, c :: s = y ++ 45%N :: rest).
Proof.
  split; [done|].
  destruct (split_first_piece 45 (c :: s)) as (y & pieces & Hsplit & Hy & Hshape).
  exists y. split; [|split; [exact Hy|]].
  - rewrite year_first_piece, Hsplit. done.
  - destruct Hshape as [[Heq _]|(rest & Heq & _)]; [by left|right; by exists rest].
Qed.

(* --------------------------------------------------------------------- *)
(** *** The page before it had a result list (src/unnamed/part_000) *)

Section DraftProperties.
Variable fetch : jsstring -> completion Response.

Lemma Draft_run_paths st :
  Draft.run fetch st
  = match fetch Draft.discover with
    | Throw e =>
        {| state := replay (caught e) st;
           trace := Fetch Draft.discover :: caught e |}
    | Normal r =>
        if ok r then
          match json r with
          | Throw e =>
              {| state := replay (caught e) st;
                 trace := Fetch Draft.discover :: caught e |}
          | Normal data =>
              {| state := st; trace := [Fetch Draft.discover; ConsoleLog (inl data)] |}
          end
        else
          {| state := replay (caught (Error (lit "failed to get movies"))) st;
             trace := Fetch Draft.discover
                      :: caught (Error (lit "failed to get movies")) |}
    end.
Proof.
  unfold Draft.run, Draft.fetchMovies, Draft.try_catch, await_fetch, pure,
    throw, console_log, setErrorMessage, emit.
  unfold mbind, M_bind. cbn [state trace fst snd app].
  destruct (fetch _) as [r|e]; [|reflexivity].
  destruct (ok r); cbn [negb]; [|reflexivity].
  destruct (json r) as [data|e]; [|reflexivity].
  by destruct st.
Qed.

(** X21: the first version of fetchMovies always asks for the discovery
    listing, once, and the only cell it ever writes is the error message,
    which it can set to the generic text but never clears. *)
Theorem Draft_fetchMovies_frame st :
  let w := Draft.run fetch st in
  (exists rest, trace w = Fetch Draft.discover :: rest
                /\ Forall (fun e => is_Fetch e = false) rest)
  /\ searchTerm (state w) = searchTerm st
  /\ isLoading (state w) = isLoading st
  /\ movieList (state w) = movieList st
  /\ (errorMessage (state w) = errorMessage st
      \/ errorMessage (state w) = generic_failure).
Proof.
  intros w. subst w. rewrite Draft_run_paths.
  destruct (fetch Draft.discover) as [r|e];
    [destruct (ok r); [destruct (json r) as [data|e]|]|];
    (split; [eexists; split; [reflexivity|by repeat constructor]|]);
    repeat split; (by left) || (by right).
Qed.

(** X22: in that version a successful fetch only logs the body: it changes
    no cell, so the message of an earlier failure stays on the page after
    a later success. *)
Theorem Draft_success_keeps_message st r data :
  fetch Draft.discover = Normal r ->
  ok r = true ->
  json r = Normal data ->
  let w := Draft.run fetch st in
  state w = st
  /\ trace w = [Fetch Draft.discover; ConsoleLog (inl data)]
  /\ Draft.error_child (state w) = Draft.error_child st.
Proof.
  intros Hfetch Hok Hjson w. subst w.
  by rewrite Draft_run_paths, Hfetch, Hok, Hjson.
Qed.

End DraftProperties.

Lemma Draft_success_keeps_message_witness :
  let w := Draft.run (Sample.answers 200 Sample.body_results) Sample.broken in
  state w = Sample.broken
  /\ Draft.error_child (state w) = Draft.Paragraph generic_failure.
Proof.
  intros w.
  destruct (Draft_success_keeps_message (Sample.answers 200 Sample.body_results)
              Sample.broken _ Sample.body_results eq_refl eq_refl eq_refl)
    as (Hstate & _ & Hchild).
  split; [exact Hstate|exact Hchild].
Defined.

(* --------------------------------------------------------------------- *)
(** *** The first app (src/my-first-react-app/src/App.jsx) *)

(** X23: a click on the heart of one card swaps the heart of that card
    (white to red, red to white), keeps its title, and leaves every other
    card as it was; a second click on the same card undoes the first. *)
Theorem click_toggles_one_card i cells :
  FirstApp.click i (FirstApp.click i cells) = cells
  /\ (forall j, j <> i ->
        FirstApp.App (FirstApp.click i cells) !! j = FirstApp.App cells !! j)
  /\ (forall title liked,
        FirstApp.titles !! i = Some title ->
        cells !! i = Some liked ->
        FirstApp.App cells !! i = Some (FirstApp.Card title liked)
        /\ FirstApp.App (FirstApp.click i cells) !! i
           = Some (FirstApp.Card title (negb liked))
        /\ FirstApp.button (FirstApp.Card title (negb liked))
           <> FirstApp.button (FirstApp.Card title liked)).
Proof.
  split; [|split].
  - unfold FirstApp.click. rewrite list_alter_alter_eq.
    apply list_alter_id. intros b. unfold FirstApp.onClick. cbn.
    apply negb_involutive.
  - intros j Hne. unfold FirstApp.App, FirstApp.click.
    by rewrite !lookup_zip_with, list_lookup_alter_ne.
  - intros title liked Htitle Hliked. unfold FirstApp.App, FirstApp.click.
    rewrite !lookup_zip_with, list_lookup_alter_eq.
    rewrite Htitle, Hliked. repeat split. by destruct liked.
Qed.

(* --------------------------------------------------------------------- *)
(** *** The effect of the component *)

Section Effect.
Context `{Engine}.
Variable fetch : jsstring -> completion Response.


End Effect.

